(** * NFCClient: the NDEF message codec (ndef.js) and the serial frame layer (comms.js)

    A shallow embedding of the two libraries of the repository.

    Conventions of the embedding.
    - A wire buffer is a JavaScript array of byte values; it is a [list Z]
      whose elements are meant to lie in 0..255.  Reading an index outside
      the array gives [undefined], which is [None] here.
    - A JavaScript string is a [string]: the characters the program handles
      (type names, URIs, text) are single-byte (Latin-1) characters, which is
      also what [String.fromCharCode] of a byte value produces.
    - The bit operators of JavaScript work on signed 32-bit integers; the
      wrap-around is written out in [JS.to_int32].
    - Exceptions are values of an error type; a loop whose termination is not
      evident takes fuel and reports when it runs out. *)

From Stdlib Require Import ZArith List String Ascii Bool Lia DecimalString.
Import ListNotations.
Local Open Scope string_scope.
Local Open Scope list_scope.
Local Open Scope Z_scope.

(* ------------------------------------------------------------------ *)
(** ** JavaScript primitives used by the two libraries *)

Module JS.

(** ToInt32: the value every bit operator converts its operands to. *)
Definition to_int32 (z : Z) : Z := (z + 2 ^ 31) mod 2 ^ 32 - 2 ^ 31.

(** ToInt32 of a value that may be [undefined]: [undefined] becomes 0. *)
Definition int32_of (v : option Z) : Z :=
  match v with
  | Some z => to_int32 z
  | None => 0
  end.

(** [a & b], [a | b], [a << n] and [a >> n] (n in 0..31). *)
Definition and (a b : Z) : Z := Z.land (to_int32 a) (to_int32 b).
Definition or (a b : Z) : Z := Z.lor (to_int32 a) (to_int32 b).
Definition shl (a n : Z) : Z := to_int32 (Z.shiftl (to_int32 a) n).
Definition sar (a n : Z) : Z := Z.shiftr (to_int32 a) n.

(** [array.length]. *)
Definition len {A} (l : list A) : Z := Z.of_nat (List.length l).

(** [array[i]]: [undefined] outside 0..length-1. *)
Definition get {A} (l : list A) (i : Z) : option A :=
  if i <? 0 then None else nth_error l (Z.to_nat i).

(** [array.slice(start, end)], with the relative (negative) indices of
    Array.prototype.slice. *)
Definition clamp_index (n i : Z) : Z :=
  if i <? 0 then Z.max (n + i) 0 else Z.min i n.

Definition slice {A} (l : list A) (start stop : Z) : list A :=
  let k := clamp_index (len l) start in
  let final := clamp_index (len l) stop in
  firstn (Z.to_nat (Z.max (final - k) 0)) (skipn (Z.to_nat k) l).

(** [s.charCodeAt(i)] of every character, in order. *)
Definition charCode (a : ascii) : Z := Z.of_N (N_of_ascii a).

Definition charCodes (s : string) : list Z :=
  List.map charCode (list_ascii_of_string s).

(** [String.fromCharCode(v)]: [undefined] gives the character 0; a byte
    value gives the character with that code (JavaScript reduces the code
    modulo 2^16, which is the same character for a byte value). *)
Definition fromCharCode (v : option Z) : ascii :=
  match v with
  | Some z => ascii_of_N (Z.to_N (z mod 256))
  | None => zero
  end.

(** [s.length] and [s.substr(n)]. *)
Definition strlen (s : string) : Z := Z.of_nat (String.length s).

Fixpoint substr (n : nat) (s : string) : string :=
  match n, s with
  | O, _ => s
  | S n', String _ s' => substr n' s'
  | S _, EmptyString => EmptyString
  end.

(** [s.toLowerCase()], character by character: A-Z and the upper-case
    letters of Latin-1 (0xC0-0xDE but the multiplication sign 0xD7). *)
Definition lower_char (a : ascii) : ascii :=
  let n := N_of_ascii a in
  if ((65 <=? n) && (n <=? 90))%N then ascii_of_N (n + 32)
  else if ((192 <=? n) && (n <=? 222) && negb (n =? 215))%N then ascii_of_N (n + 32)
  else a.

Fixpoint toLowerCase (s : string) : string :=
  match s with
  | EmptyString => EmptyString
  | String a s' => String (lower_char a) (toLowerCase s')
  end.

(** [s.match(new RegExp("^" + body))] as a truth value, for a [body] made of
    ordinary characters and the wildcard [.], which stands for any character
    but a line terminator. *)
Definition line_terminator (a : ascii) : bool :=
  (N_of_ascii a =? 10)%N || (N_of_ascii a =? 13)%N.

Definition pattern_char (p c : ascii) : bool :=
  if Ascii.eqb p "." then negb (line_terminator c) else Ascii.eqb p c.

Fixpoint match_anchored (body s : string) : bool :=
  match body with
  | EmptyString => true
  | String p body' =>
      match s with
      | EmptyString => false
      | String c s' => pattern_char p c && match_anchored body' s'
      end
  end.

(** The characters that have a meaning of their own in a regular expression
    other than [.]; a [body] without them is matched by [match_anchored]. *)
Definition regexp_special (a : ascii) : bool :=
  existsb (Ascii.eqb a)
    (list_ascii_of_string "\^$*+?()[]{}|").

Definition plain_pattern (body : string) : bool :=
  forallb (fun a => negb (regexp_special a)) (list_ascii_of_string body).

(** Decimal rendering of an integer, as string concatenation does it. *)
Definition string_of_Z (z : Z) : string := NilZero.string_of_int (Z.to_int z).

End JS.

(* ------------------------------------------------------------------ *)
(** ** ndef.js *)

Module NDEF.

(** A header flag holds what the program stored in it: a boolean (the
    constructor, [Record.prototype.getBytes]) or the masked number left by
    [fromByte]. *)
Inductive flag :=
| FBool (b : bool)
| FNum (n : Z).

Definition truthy (f : flag) : bool :=
  match f with
  | FBool b => b
  | FNum n => negb (n =? 0)
  end.

Record Header := mkHeader {
  messageBegin : flag;
  messageEnd : flag;
  chunked : flag;
  shortRecord : flag;
  IDLength : flag;
  TNF : Z
}.

(** [new Header()]. *)
Definition Header_new : Header :=
  mkHeader (FBool false) (FBool false) (FBool false) (FBool false) (FBool false) 0x01.

(** [Header.prototype.toByte]. *)
Definition Header_toByte (h : Header) : Z :=
  let b := TNF h in
  let b := if truthy (messageBegin h) then JS.or b 0x80 else b in
  let b := if truthy (messageEnd h) then JS.or b 0x40 else b in
  let b := if truthy (chunked h) then JS.or b 0x20 else b in
  let b := if truthy (shortRecord h) then JS.or b 0x10 else b in
  let b := if truthy (IDLength h) then JS.or b 0x08 else b in
  b.

(** [Header.prototype.fromByte]: every field is overwritten, so the header
    it is applied to does not matter.  The argument is [undefined] when the
    caller read it outside its buffer. *)
Definition Header_fromByte (b : option Z) : Header :=
  let b := JS.int32_of b in
  mkHeader (FNum (Z.land b 0x80)) (FNum (Z.land b 0x40)) (FNum (Z.land b 0x20))
           (FNum (Z.land b 0x10)) (FNum (Z.land b 0x08)) (Z.land b 0x7).

(** [new Header(b)]: the defaults, then [fromByte(b)]. *)
Definition Header_of_byte (b : option Z) : Header := Header_fromByte b.

(** [Record] with its three registered subtypes.  [type] and [TNF] live on
    the prototype of each subtype ([Record.extend]); [bytes] is the payload;
    the other fields are what the subtype's constructor keeps for display. *)
Inductive Record :=
| TextRecord (text lang : string) (bytes : list Z)
| URIRecord (URI : string) (bytes : list Z)
| AndroidApplicationRecord (packageName : string) (bytes : list Z).

Definition Record_type (r : Record) : string :=
  match r with
  | TextRecord _ _ _ => "T"
  | URIRecord _ _ => "U"
  | AndroidApplicationRecord _ _ => "android.com:pkg"
  end.

Definition Record_TNF (r : Record) : Z :=
  match r with
  | TextRecord _ _ _ => 0x01
  | URIRecord _ _ => 0x01
  | AndroidApplicationRecord _ _ => 0x04
  end.

Definition Record_bytes (r : Record) : list Z :=
  match r with
  | TextRecord _ _ bytes => bytes
  | URIRecord _ bytes => bytes
  | AndroidApplicationRecord _ bytes => bytes
  end.

(** [Record.prototype.getBytes(first, last)]. *)
Definition Record_getBytes (r : Record) (first last : bool) : list Z :=
  let data := Record_bytes r in
  let header :=
    mkHeader (FBool first) (FBool last) (chunked Header_new)
             (FBool (JS.len data <? 0x100)) (IDLength Header_new) (Record_TNF r) in
  let bytes := [Header_toByte header; JS.strlen (Record_type r)] in
  let bytes :=
    if truthy (shortRecord header) then bytes ++ [JS.len data]
    else bytes ++ [JS.and (JS.sar (JS.len data) 24) 0xff;
                   JS.and (JS.sar (JS.len data) 16) 0xff;
                   JS.and (JS.sar (JS.len data) 8) 0xff;
                   JS.and (JS.len data) 0xff] in
  let bytes := bytes ++ JS.charCodes (Record_type r) in
  bytes ++ data.

(** [TextRecord.prototype.reset], on a record whose [lang] is the
    constructor's ["en"], and [new TextRecord(text)]. *)
Definition TextRecord_reset (lang text : string) : Record :=
  TextRecord text lang
    ([JS.strlen lang] ++ JS.charCodes lang ++ JS.charCodes text).

Definition TextRecord_of_string (text : string) : Record :=
  TextRecord_reset "en" text.

(** [TextRecord.prototype.parse], reached by [new TextRecord(data)]. *)
Definition TextRecord_parse (data : list Z) : Record :=
  let bytes := data in
  let bytes := if JS.len bytes <? 3 then [2; JS.charCode "e"; JS.charCode "n"] else bytes in
  let lang :=
    String (JS.fromCharCode (JS.get bytes 1))
      (String (JS.fromCharCode (JS.get bytes 2)) EmptyString) in
  let text :=
    string_of_list_ascii (List.map (fun b => JS.fromCharCode (Some b)) (skipn 3 bytes)) in
  TextRecord text lang bytes.

(** [URIRecord.prototype.ProtocolList]. *)
Definition ProtocolList : list string :=
  [ "";
    "http://www.";
    "https://www.";
    "http://";
    "https://";
    "tel:";
    "mailto:";
    "ftp://anonymous:anonymous@";
    "ftp://ftp.";
    "ftps://";
    "sftp://";
    "smb://";
    "nfs://";
    "ftp://";
    "dav://";
    "news:";
    "telnet://";
    "imap:";
    "rtsp://";
    "urn:";
    "pop:";
    "sip:";
    "sips:";
    "tftp:";
    "btspp://";
    "btl2cap://";
    "btgoep://";
    "tcpobex://";
    "irdaobex://";
    "file://";
    "urn:epc:id:";
    "urn:epc:tag:";
    "urn:epc:pat:";
    "urn:epc:raw:";
    "urn:epc:";
    "urn:nfc:" ].

(** [ProtocolList[i]] inside a string concatenation: a missing entry is
    rendered as the text of [undefined]. *)
Definition protocol_text (i : Z) : string :=
  match JS.get ProtocolList i with
  | Some s => s
  | None => "undefined"
  end.

(** The scan of [URIRecord.prototype.reset]:
    [for (protocol = 1; protocol <= ProtocolList.length; protocol++)
       if (lc.match(new RegExp("^" + ProtocolList[protocol]))) break;]
    The loop body runs at most [ProtocolList.length] times; [count] bounds it. *)
Fixpoint scan_protocols (count : nat) (protocol : Z) (lc : string) : Z :=
  match count with
  | O => protocol
  | S count' =>
      if protocol <=? JS.len ProtocolList then
        if JS.match_anchored (protocol_text protocol) lc then protocol
        else scan_protocols count' (protocol + 1) lc
      else protocol
  end.

Definition find_protocol (uri : string) : Z :=
  let lc := JS.toLowerCase uri in
  let protocol := scan_protocols (S (List.length ProtocolList)) 1 lc in
  if protocol >=? JS.len ProtocolList then 0 else protocol.

(** [URIRecord.prototype.reset], reached by [new URIRecord(uri)]. *)
Definition URIRecord_reset (uri : string) : Record :=
  let protocol := find_protocol uri in
  let remainder := JS.substr (String.length (protocol_text protocol)) uri in
  URIRecord uri ([protocol] ++ JS.charCodes remainder).

(** [URIRecord.prototype.parse], reached by [new URIRecord(data)].  With an
    empty payload the record keeps the empty [bytes] of its prototype. *)
Definition URIRecord_parse (data : list Z) : Record :=
  if JS.len data <? 1 then URIRecord "" []
  else
    let protocol := match JS.get data 0 with Some p => p | None => 0 end in
    let protocol := if protocol >=? JS.len ProtocolList then 0 else protocol in
    let URI :=
      (protocol_text protocol ++
       string_of_list_ascii (List.map (fun b => JS.fromCharCode (Some b)) (skipn 1 data)))%string in
    URIRecord URI data.

(** [AndroidApplicationRecord.prototype.reset] and [.parse]. *)
Definition AndroidApplicationRecord_reset (text : string) : Record :=
  AndroidApplicationRecord text (JS.charCodes text).

Definition AndroidApplicationRecord_parse (data : list Z) : Record :=
  AndroidApplicationRecord
    (string_of_list_ascii (List.map (fun b => JS.fromCharCode (Some b)) data)) data.

(** [Record.typeKeys] after the three [Record.extend] calls, in insertion
    order, which is the order [for ... in] visits the keys. *)
Definition typeKeys : list (string * (list Z -> Record)) :=
  [ ("T", TextRecord_parse);
    ("U", URIRecord_parse);
    ("android.com:pkg", AndroidApplicationRecord_parse) ].

Fixpoint find_type (keys : list (string * (list Z -> Record))) (recordType : string)
  : option (list Z -> Record) :=
  match keys with
  | [] => None
  | (type, ctor) :: keys' =>
      if String.eqb recordType type then Some ctor else find_type keys' recordType
  end.

(** What [Record.parse] throws. *)
Inductive exn :=
| InvalidRecordData
| InvalidRecordLength (recordLen remaining : Z)
| UnsupportedRecordType (recordType : string).

Definition exn_text (e : exn) : string :=
  match e with
  | InvalidRecordData => "Invalid NDEF record data"
  | InvalidRecordLength recordLen remaining =>
      ("Invalid NDEF record data (len " ++ JS.string_of_Z recordLen ++ "/"
         ++ JS.string_of_Z remaining ++ ")")%string
  | UnsupportedRecordType recordType => ("Unsupported record type: " ++ recordType)%string
  end.

(** The read cursor of [Record.parse]: [ptr], and the indices of [data]
    read so far, in order. *)
Record cursor := mkCursor { ptr : Z; reads : list Z }.

Inductive result (A : Type) :=
| Ok (a : A)
| Throw (e : exn).
Arguments Ok {A} a.
Arguments Throw {A} e.

Definition parser (A : Type) : Type := cursor -> result A * cursor.

Definition ret {A} (a : A) : parser A := fun c => (Ok a, c).

Definition throw {A} (e : exn) : parser A := fun c => (Throw e, c).

Definition bind {A B} (m : parser A) (k : A -> parser B) : parser B :=
  fun c =>
    match m c with
    | (Ok a, c') => k a c'
    | (Throw e, c') => (Throw e, c')
    end.

Notation "x <- m ;; k" := (bind m (fun x => k))
  (at level 61, m at next level, right associativity).

(** [data[ptr++]]. *)
Definition next (data : list Z) : parser (option Z) :=
  fun c => (Ok (JS.get data (ptr c)), mkCursor (ptr c + 1) (reads c ++ [ptr c])).

Definition current : parser Z := fun c => (Ok (ptr c), c).

(** [for (i = 0; i < typeLen; i++) recordType += String.fromCharCode(data[ptr++])]. *)
Fixpoint next_chars (data : list Z) (count : nat) (recordType : string) : parser string :=
  match count with
  | O => ret recordType
  | S count' =>
      b <- next data ;;
      next_chars data count' (recordType ++ String (JS.fromCharCode b) EmptyString)%string
  end.

(** The number of rounds of [for (i = 0; i < typeLen; i++)]: none when
    [typeLen] is [undefined]. *)
Definition rounds (typeLen : option Z) : nat :=
  match typeLen with
  | Some n => Z.to_nat n
  | None => O
  end.

(** [Record.parse(data, offset)], from the cursor at [offset]. *)
Definition Record_parse_from (data : list Z) (offset : Z) : parser (Z * Record) :=
  p <- current ;;
  if JS.len data - p <? 4 then throw InvalidRecordData
  else
    b <- next data ;;
    let header := Header_of_byte b in
    typeLen <- next data ;;
    recordLen <-
      (if truthy (shortRecord header) then
         (* the header byte was read inside the buffer and four bytes
            remain from it, so this read is inside the buffer too *)
         l <- next data ;; ret (match l with Some n => n | None => 0 end)
       else
         l0 <- next data ;;
         l1 <- next data ;;
         l2 <- next data ;;
         l3 <- next data ;;
         ret (JS.or (JS.or (JS.or (JS.shl (JS.int32_of l0) 24) (JS.shl (JS.int32_of l1) 16))
                           (JS.shl (JS.int32_of l2) 8))
                    (JS.int32_of l3))) ;;
    recordType <- next_chars data (rounds typeLen) "" ;;
    p <- current ;;
    if JS.len data - p <? recordLen then
      throw (InvalidRecordLength recordLen (JS.len data - p))
    else
      let recordData := JS.slice data p (p + recordLen) in
      let consumed := p - offset + recordLen in
      match find_type typeKeys recordType with
      | Some ctor => ret (consumed, ctor recordData)
      | None => throw (UnsupportedRecordType recordType)
      end.

Definition Record_parse_run (data : list Z) (offset : Z) : result (Z * Record) * cursor :=
  Record_parse_from data offset (mkCursor offset []).

(** The value or exception of [Record.parse(data, offset)]. *)
Definition Record_parse (data : list Z) (offset : Z) : result (Z * Record) :=
  fst (Record_parse_run data offset).

(** The indices of [data] that [Record.parse(data, offset)] reads. *)
Definition Record_parse_reads (data : list Z) (offset : Z) : list Z :=
  reads (snd (Record_parse_run data offset)).

(** [Message]: its [records], in order. *)
Record Message := mkMessage { records : list Record }.

(** [Message.prototype.getBytes]: the loop over [i], [rest] being the
    records from index [i] on. *)
Fixpoint getBytes_loop (n : Z) (i : Z) (rest : list Record) (bytes : list Z) : list Z :=
  match rest with
  | [] => bytes
  | r :: rest' =>
      getBytes_loop n (i + 1) rest' (bytes ++ Record_getBytes r (i =? 0) (i =? n - 1))
  end.

Definition Message_getBytes (m : Message) : list Z :=
  getBytes_loop (JS.len (records m)) 0 (records m) [].

(** How a call that may loop ends. *)
Inductive outcome (A : Type) :=
| Returned (a : A)
| Threw (e : exn)
| OutOfFuel.
Arguments Returned {A} a.
Arguments Threw {A} e.
Arguments OutOfFuel {A}.

(** [Message.parse]: [while (offset < data.length)], one unit of fuel for
    each evaluation of the loop condition. *)
Fixpoint parse_loop (fuel : nat) (data : list Z) (offset : Z) (recs : list Record)
  : outcome Message :=
  match fuel with
  | O => OutOfFuel
  | S fuel' =>
      if offset <? JS.len data then
        match Record_parse data offset with
        | Ok (consumed, record) => parse_loop fuel' data (offset + consumed) (recs ++ [record])
        | Throw e => Threw e
        end
      else Returned (mkMessage recs)
  end.

Definition Message_parse (fuel : nat) (data : list Z) : outcome Message :=
  parse_loop fuel data 0 [].

End NDEF.

(* ------------------------------------------------------------------ *)
(** ** comms.js *)

Module Comms.

(** [RESPONSE_CODE]: the response codes of the board. *)
Module RESPONSE_CODE.
Definition VERSION : Z := 0xA0.
Definition ACK : Z := 0xA1.
Definition DATA : Z := 0xA2.
Definition INTERRUPT : Z := 0xA4.
Definition MESSAGE : Z := 0xA5.
Definition ERR : Z := 0xEF.
End RESPONSE_CODE.

(** [COMMS_STATE]: the state of the inbound decoder. *)
Module COMMS_STATE.
Inductive t := NULL | LEN | DATA | INFO.
End COMMS_STATE.

(** [COMMS_EVENT_TYPE]. *)
Module COMMS_EVENT_TYPE.
Inductive t :=
| NULL | INFORMATION | CONNECT_EVENT | DATA | ERROR | NDEF_MESSAGE | INTERRUPT | ACK.
End COMMS_EVENT_TYPE.

(** The [data] property of an event: the info byte, the accumulated bytes,
    or the parsed message. *)
Inductive event_data :=
| Byte (b : Z)
| Bytes (l : list Z)
| Parsed (m : NDEF.Message).

(** An object passed to [events.emit('comms-event', ...)]; a property the
    object does not have is [None]. *)
Record event := mkEvent {
  type : option COMMS_EVENT_TYPE.t;
  data : option event_data;
  message : option string
}.

(** The module-level variables that [processdata] reads and writes. *)
Record session := mkSession {
  state : COMMS_STATE.t;
  inbound : list Z;
  inboundCount : Z;
  inboundResponse : Z
}.

Definition initial : session := mkSession COMMS_STATE.NULL [] 0 0.

(** One round of the [for] loop of [processdata]: the variables afterwards,
    the events emitted, and the text appended to the local [s]; or the
    uncaught throw of the DATA case; or a call of [Message.parse] that has
    not returned within the fuel. *)
Inductive round :=
| Next (st : session) (emitted : list event) (s : string)
| Unexpected (response : Z)
| Stalled.

Definition info_type (code : option Z) : option COMMS_EVENT_TYPE.t :=
  match code with
  | Some c =>
      if c =? RESPONSE_CODE.ACK then Some COMMS_EVENT_TYPE.ACK
      else if c =? RESPONSE_CODE.ERR then Some COMMS_EVENT_TYPE.ERROR
      else if c =? RESPONSE_CODE.INTERRUPT then Some COMMS_EVENT_TYPE.INTERRUPT
      else None
  | None => None
  end.

Definition read_error (ex : NDEF.exn) : event :=
  mkEvent (Some COMMS_EVENT_TYPE.ERROR) None
          (Some ("Message read error: " ++ NDEF.exn_text ex)%string).

Definition processbyte (fuel : nat) (st : session) (b : Z) : round :=
  match state st with
  | COMMS_STATE.INFO =>
      let evt := mkEvent (info_type (JS.get (inbound st) 0)) (Some (Byte b)) None in
      Next (mkSession COMMS_STATE.NULL (inbound st) (inboundCount st) (inboundResponse st))
           [evt] ""
  | COMMS_STATE.LEN =>
      let inbound' := inbound st ++ [b] in
      if JS.len inbound' =? 2 then
        let count :=
          JS.or (JS.shl (JS.int32_of (JS.get inbound' 0)) 8) (JS.int32_of (JS.get inbound' 1)) in
        Next (mkSession COMMS_STATE.DATA [] count (inboundResponse st)) [] ""
      else
        Next (mkSession COMMS_STATE.LEN inbound' (inboundCount st) (inboundResponse st)) [] ""
  | COMMS_STATE.DATA =>
      let inbound' := inbound st ++ [b] in
      if JS.len inbound' =? inboundCount st then
        let st' :=
          mkSession COMMS_STATE.NULL inbound' (inboundCount st) (inboundResponse st) in
        if inboundResponse st =? RESPONSE_CODE.MESSAGE then
          match NDEF.Message_parse fuel inbound' with
          | NDEF.Returned msg =>
              Next st' [mkEvent (Some COMMS_EVENT_TYPE.NDEF_MESSAGE) (Some (Parsed msg)) None] ""
          | NDEF.Threw ex => Next st' [read_error ex] ""
          | NDEF.OutOfFuel => Stalled
          end
        else if (inboundResponse st =? RESPONSE_CODE.DATA)
                || (inboundResponse st =? RESPONSE_CODE.VERSION) then
          Next st' [mkEvent (Some COMMS_EVENT_TYPE.DATA) (Some (Bytes inbound')) None] ""
        else Unexpected (inboundResponse st)
      else
        Next (mkSession COMMS_STATE.DATA inbound' (inboundCount st) (inboundResponse st)) [] ""
  | COMMS_STATE.NULL =>
      if b =? RESPONSE_CODE.MESSAGE then
        Next (mkSession COMMS_STATE.LEN [] (-1) RESPONSE_CODE.MESSAGE) [] ""
      else if (b =? RESPONSE_CODE.DATA) || (b =? RESPONSE_CODE.VERSION) then
        Next (mkSession COMMS_STATE.DATA [] 2 RESPONSE_CODE.DATA) [] ""
      else if (b =? RESPONSE_CODE.ACK) || (b =? RESPONSE_CODE.ERR)
              || (b =? RESPONSE_CODE.INTERRUPT) then
        Next (mkSession COMMS_STATE.INFO [b] (inboundCount st) (inboundResponse st)) [] ""
      else
        Next st []
             (String (if (b >=? 0x20) && (b <=? 0x80) then JS.fromCharCode (Some b) else "?")
                     EmptyString)
  end.

(** How a call of [processdata] ends: it returns, with the variables and the
    events emitted during the call; or the throw of the DATA case leaves it,
    after the events already emitted; or it is stuck in [Message.parse]. *)
Inductive ending :=
| Done (st : session) (events : list event)
| Raised (response : Z) (events : list event)
| Hung (events : list event).

Definition information (s : string) : list event :=
  if (String.length s =? 0)%nat then []
  else [mkEvent (Some COMMS_EVENT_TYPE.INFORMATION) None (Some s)].

(** The [for] loop of [processdata] and the final flush of [s]. *)
Fixpoint processdata_loop (fuel : nat) (st : session) (bytes : list Z)
                          (s : string) (events : list event) : ending :=
  match bytes with
  | [] => Done st (events ++ information s)
  | b :: bytes' =>
      match processbyte fuel st b with
      | Next st' emitted s' =>
          processdata_loop fuel st' bytes' (s ++ s')%string (events ++ emitted)
      | Unexpected response => Raised response events
      | Stalled => Hung events
      end
  end.

Definition processdata (fuel : nat) (st : session) (bytes : list Z) : ending :=
  processdata_loop fuel st bytes "" [].

(** The port calls [processdata] once for each chunk it delivers. *)
Fixpoint feed (fuel : nat) (st : session) (chunks : list (list Z)) (events : list event)
  : ending :=
  match chunks with
  | [] => Done st events
  | chunk :: chunks' =>
      match processdata fuel st chunk with
      | Done st' emitted => feed fuel st' chunks' (events ++ emitted)
      | Raised response emitted => Raised response (events ++ emitted)
      | Hung emitted => Hung (events ++ emitted)
      end
  end.




(** [senddata]: the escaping loop, and the write.  The port is [None] when
    the variable [port] is [null], else the arrays written to it so far. *)
Fixpoint escape_loop (data : list Z) (bytes : list Z) : list Z :=
  match data with
  | [] => bytes
  | d :: data' =>
      let bytes := if d =? 0x4a then bytes ++ [0xe5] else bytes in
      escape_loop data' (bytes ++ [d])
  end.

Definition senddata (port : option (list (list Z))) (data : list Z)
  : option (list (list Z)) :=
  match port with
  | None => None
  | Some written => Some (written ++ [escape_loop data [0x4a; 0xe5]])
  end.

End Comms.

(* ------------------------------------------------------------------ *)
(** ** The properties stated about the two libraries *)

Module Properties.

Import NDEF.

(** *** URI abbreviation *)

(** Entry [j] of the table is a literal prefix of the lower-cased URI. *)
Definition entry_prefix (j : Z) (lc : string) : bool :=
  String.prefix (protocol_text j) lc.

(** [i] is the longest entry among 1..35 that is a prefix of [lc], or 0 when
    no entry is. *)
Definition longest_prefix_index (lc : string) (i : Z) : Prop :=
  (1 <= i <= 35 /\ entry_prefix i lc = true /\
   forall j, 1 <= j <= 35 -> entry_prefix j lc = true ->
             JS.strlen (protocol_text j) <= JS.strlen (protocol_text i))
  \/ (i = 0 /\ forall j, 1 <= j <= 35 -> entry_prefix j lc = false).

(** [i] is the first entry in table order among 1..35 that is a prefix of
    [lc], or 0 when no entry is. *)
Definition first_prefix_index (lc : string) (i : Z) : Prop :=
  (1 <= i <= 35 /\ entry_prefix i lc = true /\
   forall j, 1 <= j < i -> entry_prefix j lc = false)
  \/ (i = 0 /\ forall j, 1 <= j <= 35 -> entry_prefix j lc = false).

(** The payload of [new URIRecord(uri)] is [index] followed by the URI
    without the first [length of entry index] characters. *)
Definition encodes_with (uri : string) (i : Z) : Prop :=
  Record_bytes (URIRecord_reset uri)
  = i :: JS.charCodes (JS.substr (String.length (protocol_text i)) uri).

Definition encodes_longest_prefix (uri : string) : Prop :=
  exists i, longest_prefix_index (JS.toLowerCase uri) i /\ encodes_with uri i.

Definition encodes_first_prefix (uri : string) : Prop :=
  exists i, first_prefix_index (JS.toLowerCase uri) i /\ encodes_with uri i.

(** Every table entry that matches [lc] as a pattern does so with its dots
    on dots, that is, as a literal prefix. *)
Definition dots_on_dots (lc : string) : Prop :=
  forall j, 1 <= j <= 35 ->
    JS.match_anchored (protocol_text j) lc = true -> entry_prefix j lc = true.

(** *** Record and message codec *)

(** The type name read from index [p] on, and the indices from [p] on. *)
Fixpoint chars_at (data : list Z) (p : Z) (count : nat) : string :=
  match count with
  | O => ""
  | S count' => String (JS.fromCharCode (JS.get data p)) (chars_at data (p + 1) count')
  end.

Fixpoint span (p : Z) (count : nat) : list Z :=
  match count with
  | O => []
  | S count' => p :: span (p + 1) count'
  end.

(** What [NDEF.Record_parse] computes, with every read written at its
    index instead of through the cursor; the two are proved equal below. *)
Definition Record_parse_direct (data : list Z) (offset : Z) : result (Z * Record) :=
  if JS.len data - offset <? 4 then Throw InvalidRecordData
  else
    let header := Header_of_byte (JS.get data offset) in
    let typeLen := JS.get data (offset + 1) in
    let short := truthy (shortRecord header) in
    let recordLen :=
      if short then match JS.get data (offset + 2) with Some n => n | None => 0 end
      else JS.or (JS.or (JS.or (JS.shl (JS.int32_of (JS.get data (offset + 2))) 24)
                               (JS.shl (JS.int32_of (JS.get data (offset + 3))) 16))
                        (JS.shl (JS.int32_of (JS.get data (offset + 4))) 8))
                 (JS.int32_of (JS.get data (offset + 5))) in
    let p := (if short then offset + 3 else offset + 6) + Z.of_nat (rounds typeLen) in
    let recordType := chars_at data (if short then offset + 3 else offset + 6) (rounds typeLen) in
    if JS.len data - p <? recordLen then
      Throw (InvalidRecordLength recordLen (JS.len data - p))
    else
      match find_type typeKeys recordType with
      | Some ctor => Ok (p - offset + recordLen, ctor (JS.slice data p (p + recordLen)))
      | None => Throw (UnsupportedRecordType recordType)
      end.

(** The number of reads of [Record.parse] once four bytes remain: header,
    type length, one or four length bytes, and the type name. *)
Definition fields_read (data : list Z) (offset : Z) : nat :=
  ((if truthy (shortRecord (Header_of_byte (JS.get data offset))) then 3 else 6)
   + rounds (JS.get data (offset + 1)))%nat.

(** The record that parsing builds from the payload of [r]. *)
Definition reparsed (r : Record) : Record :=
  match r with
  | TextRecord _ _ bytes => TextRecord_parse bytes
  | URIRecord _ bytes => URIRecord_parse bytes
  | AndroidApplicationRecord _ bytes => AndroidApplicationRecord_parse bytes
  end.

(** A well-formed record: its type name is registered, its payload has the
    minimum shape of its subtype (language length and two letters for a
    text record, the protocol index for a URI record), and its type name
    has 1 to 255 characters. *)
Definition registered (r : Record) : Prop :=
  find_type typeKeys (Record_type r) <> None.

Definition minimum_shape (r : Record) : Prop :=
  match r with
  | TextRecord _ _ bytes => 3 <= JS.len bytes
  | URIRecord _ bytes => 1 <= JS.len bytes
  | AndroidApplicationRecord _ _ => True
  end.

Definition well_formed_record (r : Record) : Prop :=
  registered r /\ minimum_shape r /\ 1 <= JS.strlen (Record_type r) <= 255.

Definition well_formed (m : Message) : Prop :=
  Forall well_formed_record (records m).

(** Every payload of [m] has fewer than [bound] bytes. *)
Definition payloads_below (bound : Z) (m : Message) : Prop :=
  Forall (fun r => JS.len (Record_bytes r) < bound) (records m).

(** [m'] has the records of [m]: same order, type names and payloads. *)
Definition same_records (m m' : Message) : Prop :=
  List.map Record_type (records m') = List.map Record_type (records m)
  /\ List.map Record_bytes (records m') = List.map Record_bytes (records m).

(** Parsing the bytes of [m] gives the records of [m] back. *)
Definition roundtrips (m : Message) : Prop :=
  exists fuel m',
    Message_parse fuel (Message_getBytes m) = Returned m' /\ same_records m m'.

(** A text record whose payload has 2^31 bytes, alone in a message. *)
Definition big_message : Message :=
  mkMessage [TextRecord "" "en" (repeat 0 (Z.to_nat (2 ^ 31)))].

(** Two records and their message, for the examples. *)
Definition example_message : Message :=
  mkMessage [URIRecord_reset "http://www.example.com"; TextRecord_of_string "hi"].

(** A long-form text record that declares 0xFFFFFFF9 payload bytes and
    ends after its type name. *)
Definition looping_buffer : list Z := [0x01; 0x01; 0xFF; 0xFF; 0xFF; 0xF9; 0x54].

(** The first four bytes of a long-form record: header, type length, and
    half of the length field. *)
Definition truncated_buffer : list Z := [0x01; 0x01; 0x00; 0x00].

(** *** Frame layer *)

Import Comms.

(** The rounds of the [for] loop of [processdata] over [bytes], without the
    final flush: the events emitted, the text gathered in [s], and how the
    loop stops. *)
Inductive stop :=
| Finished (st : session)
| Thrown (response : Z)
| Stuck.

Fixpoint decode (fuel : nat) (st : session) (bytes : list Z) : list event * string * stop :=
  match bytes with
  | [] => ([], "", Finished st)
  | b :: bytes' =>
      match processbyte fuel st b with
      | Next st' emitted s' =>
          let '(events, s, stop) := decode fuel st' bytes' in
          (emitted ++ events, (s' ++ s)%string, stop)
      | Unexpected response => ([], "", Thrown response)
      | Stalled => ([], "", Stuck)
      end
  end.

(** What [processdata] returns, from the rounds of its loop. *)
Definition flushed (rounds : list event * string * stop) (s : string) (events : list event)
  : ending :=
  match rounds with
  | (emitted, s', Finished st) => Done st (events ++ emitted ++ information (s ++ s')%string)
  | (emitted, _, Thrown response) => Raised response (events ++ emitted)
  | (emitted, _, Stuck) => Hung (events ++ emitted)
  end.

(** The events emitted up to the end of a call. *)
Definition emitted_events (e : ending) : list event :=
  match e with
  | Done _ events => events
  | Raised _ events => events
  | Hung events => events
  end.


(** In the states that wait for a length or for data, the response kind is
    one the DATA case handles. *)
Definition classified (st : session) : Prop :=
  match state st with
  | COMMS_STATE.LEN => inboundResponse st = RESPONSE_CODE.MESSAGE
  | COMMS_STATE.DATA =>
      inboundResponse st = RESPONSE_CODE.MESSAGE \/ inboundResponse st = RESPONSE_CODE.DATA
  | _ => True
  end.

(** The frames the board sends: a MESSAGE code, a two-byte big-endian
    length and that many bytes; a DATA or VERSION code and two bytes; an
    ACK, ERR or INTERRUPT code and one byte. *)
Inductive frame :=
| MessageFrame (payload : list Z)
| DataFrame (code b1 b2 : Z)
| InfoFrame (code b : Z).

Definition frame_bytes (f : frame) : list Z :=
  match f with
  | MessageFrame payload =>
      [RESPONSE_CODE.MESSAGE; JS.len payload / 256; JS.len payload mod 256] ++ payload
  | DataFrame code b1 b2 => [code; b1; b2]
  | InfoFrame code b => [code; b]
  end.

(** The event a well-formed frame stands for. *)
Inductive frame_event (fuel : nat) : frame -> event -> Prop :=
| message_event payload msg :
    0 < JS.len payload < 65536 ->
    NDEF.Message_parse fuel payload = NDEF.Returned msg ->
    frame_event fuel (MessageFrame payload)
      (mkEvent (Some COMMS_EVENT_TYPE.NDEF_MESSAGE) (Some (Parsed msg)) None)
| data_event code b1 b2 :
    code = RESPONSE_CODE.DATA \/ code = RESPONSE_CODE.VERSION ->
    frame_event fuel (DataFrame code b1 b2)
      (mkEvent (Some COMMS_EVENT_TYPE.DATA) (Some (Bytes [b1; b2])) None)
| ack_event b :
    frame_event fuel (InfoFrame RESPONSE_CODE.ACK b)
      (mkEvent (Some COMMS_EVENT_TYPE.ACK) (Some (Byte b)) None)
| err_event b :
    frame_event fuel (InfoFrame RESPONSE_CODE.ERR b)
      (mkEvent (Some COMMS_EVENT_TYPE.ERROR) (Some (Byte b)) None)
| interrupt_event b :
    frame_event fuel (InfoFrame RESPONSE_CODE.INTERRUPT b)
      (mkEvent (Some COMMS_EVENT_TYPE.INTERRUPT) (Some (Byte b)) None).

(** Byte stuffing: the second marker byte goes before a byte equal to the
    first marker byte; the byte itself always follows. *)
Definition stuffed (d : Z) : list Z :=
  if d =? 0x4A then [0xE5; d] else [d].

End Properties.

(* ------------------------------------------------------------------ *)
(** ** ndef.js: the JSON representation *)

Module NDEFJSON.

Import NDEF.

(** An element of the list that [JSON.parse] returns and [JSON.stringify]
    takes: an object with a [type] and, when present, a string [args]
    (the argument of the constructor of that type). *)
Record entry := mkEntry { type : string; args : option string }.

(** [new TextRecord(cdata)], [new URIRecord(cdata)] and
    [new AndroidApplicationRecord(cdata)] for a string or a missing
    argument: a string goes to [reset]; with no argument the object keeps
    the fields set by the constructor and the empty [bytes] of its
    prototype. *)
Definition TextRecord_new (cdata : option string) : Record :=
  match cdata with
  | Some text => TextRecord_of_string text
  | None => TextRecord "" "en" []
  end.

Definition URIRecord_new (cdata : option string) : Record :=
  match cdata with
  | Some uri => URIRecord_reset uri
  | None => URIRecord "" []
  end.

Definition AndroidApplicationRecord_new (cdata : option string) : Record :=
  match cdata with
  | Some text => AndroidApplicationRecord_reset text
  | None => AndroidApplicationRecord "" []
  end.

(** [Record.typeKeys], applied to the argument of a JSON entry. *)
Definition typeKeys : list (string * (option string -> Record)) :=
  [ ("T", TextRecord_new);
    ("U", URIRecord_new);
    ("android.com:pkg", AndroidApplicationRecord_new) ].

Fixpoint own_key (keys : list (string * (option string -> Record))) (type : string)
  : option (option string -> Record) :=
  match keys with
  | [] => None
  | (key, ctor) :: keys' => if String.eqb type key then Some ctor else own_key keys' type
  end.

(** [TextRecord.prototype.getJSON], [URIRecord.prototype.getJSON] and
    [AndroidApplicationRecord.prototype.getJSON]. *)
Definition Record_getJSON (r : Record) : entry :=
  match r with
  | TextRecord text _ _ => mkEntry (Record_type r) (Some text)
  | URIRecord URI _ => mkEntry (Record_type r) (Some URI)
  | AndroidApplicationRecord packageName _ => mkEntry (Record_type r) (Some packageName)
  end.

(** What [typeKeys[obj.type]] is when [obj.type] is no key of [typeKeys]
    itself: [undefined], or a property that every object inherits from
    [Object.prototype], which [new] either can call ([constructor], the
    function [Object]) or cannot (a method such as [hasOwnProperty]).
    Which names are inherited belongs to the engine, not to the program. *)
Inductive inherited_property :=
| NotInherited
| InheritedConstructor
| InheritedOther.

(** An element of [msg.records] in [Message.fromJSON]: a record, or the
    object that [new] builds through an inherited constructor from the
    [args] of an entry of that type. *)
Inductive element :=
| OfRecord (r : Record)
| OfObject (type : string) (args : option string).

(** How [Record.fromJSON] and [Message.fromJSON] end: with a result; with
    the throw "Type not found: ..."; or with the [TypeError] of [new] on an
    inherited property that is no constructor. *)
Inductive built (A : Type) :=
| Built (a : A)
| TypeNotFound (type : string)
| NotAConstructor (type : string).
Arguments Built {A} a.
Arguments TypeNotFound {A} type.
Arguments NotAConstructor {A} type.

Section FromJSON.

Variable inherited : string -> inherited_property.

(** [Record.fromJSON]: the test for a missing constructor lets every
    inherited property pass. *)
Definition Record_fromJSON (obj : entry) : built element :=
  match own_key typeKeys (type obj) with
  | Some ctor => Built (OfRecord (ctor (args obj)))
  | None =>
      match inherited (type obj) with
      | NotInherited => TypeNotFound (type obj)
      | InheritedConstructor => Built (OfObject (type obj) (args obj))
      | InheritedOther => NotAConstructor (type obj)
      end
  end.

(** The loop of [Message.fromJSON] over the parsed list: what is built is
    pushed, a throw leaves the loop. *)
Fixpoint fromJSON_loop (entries : list entry) (recs : list element) : built (list element) :=
  match entries with
  | [] => Built recs
  | obj :: entries' =>
      match Record_fromJSON obj with
      | Built record => fromJSON_loop entries' (recs ++ [record])
      | TypeNotFound type => TypeNotFound type
      | NotAConstructor type => NotAConstructor type
      end
  end.

(** [Message.fromJSON], from the list that [JSON.parse] returns, to the
    [records] of the message it returns. *)
Definition Message_fromJSON (entries : list entry) : built (list element) :=
  fromJSON_loop entries [].

End FromJSON.

(** [Message.prototype.getJSON], up to the list handed to
    [JSON.stringify]. *)
Definition Message_getJSON (m : Message) : list entry :=
  List.map Record_getJSON (records m).

End NDEFJSON.

(* ------------------------------------------------------------------ *)
(** ** nfc-client.js *)

Module Client.

(** [comms.COMMAND.SET_NFC_MESSAGE]. *)
Definition SET_NFC_MESSAGE : Z := 0x40.

(** How [sendMessage] ends: with the throw "Not connected", or after the
    call of [comms.send], with the port as that call leaves it. *)
Inductive sent :=
| NotConnected
| Sent (port : option (list (list Z))).

(** [comms.connected] is a function; [sendMessage] tests the function
    itself, not the result of calling it, and a function is truthy. *)
Definition connected_truthy : bool := true.

(** [sendMessage]. *)
Definition sendMessage (port : option (list (list Z))) (message : NDEF.Message) : sent :=
  if negb connected_truthy then NotConnected
  else
    let bytes := NDEF.Message_getBytes message in
    let len := JS.len bytes in
    let tmp := [SET_NFC_MESSAGE; JS.sar len 8; JS.and len 0xff] ++ bytes in
    Sent (Comms.senddata port tmp).

(** [HEX[i]]: the digit at index [i] of "0123456789ABCDEF". *)
Definition HEX (i : Z) : string :=
  match String.get (Z.to_nat i) "0123456789ABCDEF" with
  | Some a => String a EmptyString
  | None => "undefined"
  end.

(** The loop of [hex]: [while (c > 0) { str = HEX[c%16] + str;
    c = Math.floor(c/16); }], on an integer [c]; [None] when the fuel does
    not last. *)
Fixpoint hex_loop (fuel : nat) (c : Z) (str : string) : option string :=
  if c >? 0 then
    match fuel with
    | O => None
    | S fuel' => hex_loop fuel' (c / 16) (HEX (c mod 16) ++ str)%string
    end
  else Some str.

(** [hex]. *)
Definition hex (fuel : nat) (c : Z) : option string :=
  match hex_loop fuel c "" with
  | Some str =>
      Some ((if (String.length str mod 2 =? 1)%nat then "0x0" else "0x") ++ str)%string
  | None => None
  end.

End Client.

(* ------------------------------------------------------------------ *)
(** ** Further properties of the two libraries and of the client *)

Module MoreProperties.

Import NDEF Comms Properties.

(** *** Records and messages *)

(** The string whose character codes are [bytes]. *)
Definition chars (bytes : list Z) : string :=
  string_of_list_ascii (List.map (fun b => JS.fromCharCode (Some b)) bytes).

(** A record with the two arguments [getBytes] is called with, and the
    bytes of a sequence of such records. *)
Definition flagged : Type := (Record * bool * bool)%type.

Definition encoded (rs : list flagged) : list Z :=
  List.concat
    (List.map (fun x : flagged => Record_getBytes (fst (fst x)) (snd (fst x)) (snd x)) rs).

(** The arguments [Message.prototype.getBytes] gives to the records from
    index [i] on, in a message of [n] records. *)
Fixpoint flags (n i : Z) (rest : list Record) : list flagged :=
  match rest with
  | [] => []
  | r :: rest' => (r, i =? 0, i =? n - 1) :: flags n (i + 1) rest'
  end.

(** A record as one of the three constructors builds it from a string; for
    a URI, one whose selected table entry is a prefix of the URI as it is
    written. *)
Definition built_by_constructor (r : Record) : Prop :=
  (exists text, r = TextRecord_of_string text)
  \/ (exists uri, r = URIRecord_reset uri
                  /\ String.prefix (protocol_text (find_protocol uri)) uri = true)
  \/ (exists text, r = AndroidApplicationRecord_reset text).

(** A buffer of byte values. *)
Definition byte_values (data : list Z) : Prop :=
  Forall (fun b => 0 <= b < 256) data.

(** At index [i] a header without the short-record bit is followed, two
    bytes on, by a length byte of 0x80 or more: read as a record, the
    length is negative. *)
Definition negative_length_at (data : list Z) (i : Z) : Prop :=
  truthy (shortRecord (Header_of_byte (JS.get data i))) = false
  /\ exists b, JS.get data (i + 2) = Some b /\ 128 <= b.

(** The record a JSON entry written for [r] is read back as. *)
Definition rebuilt (r : Record) : Record :=
  match r with
  | TextRecord text _ _ => TextRecord_of_string text
  | URIRecord URI _ => URIRecord_reset URI
  | AndroidApplicationRecord packageName _ => AndroidApplicationRecord_reset packageName
  end.

(** An engine in which [constructor] is the one inherited name, for the
    examples. *)
Definition constructor_only (name : string) : NDEFJSON.inherited_property :=
  if String.eqb name "constructor" then NDEFJSON.InheritedConstructor
  else NDEFJSON.NotInherited.

(** *** Frame layer *)




(** What the variables of the decoder satisfy between two bytes. *)
Definition settled (st : session) : Prop :=
  match state st with
  | COMMS_STATE.NULL => True
  | COMMS_STATE.LEN => inboundResponse st = RESPONSE_CODE.MESSAGE
  | COMMS_STATE.DATA =>
      inboundResponse st = RESPONSE_CODE.MESSAGE
      \/ (inboundResponse st = RESPONSE_CODE.DATA /\ inboundCount st = 2
          /\ JS.len (inbound st) < 2)
  | COMMS_STATE.INFO =>
      exists c, inbound st = [c]
                /\ (c = RESPONSE_CODE.ACK \/ c = RESPONSE_CODE.ERR \/ c = RESPONSE_CODE.INTERRUPT)
  end.

(** The shape of an event by its type: one info byte for ACK and
    INTERRUPT; one info byte, or a message text, for ERROR; exactly two
    bytes for DATA; a parsed message for NDEF_MESSAGE; a text that is not
    empty for INFORMATION.  No other type, and no missing type. *)
Definition event_shaped (e : event) : Prop :=
  match type e with
  | Some COMMS_EVENT_TYPE.ACK | Some COMMS_EVENT_TYPE.INTERRUPT =>
      exists b, data e = Some (Byte b) /\ message e = None
  | Some COMMS_EVENT_TYPE.ERROR =>
      (exists b, data e = Some (Byte b) /\ message e = None)
      \/ (exists text, data e = None /\ message e = Some text)
  | Some COMMS_EVENT_TYPE.DATA =>
      exists b1 b2, data e = Some (Bytes [b1; b2]) /\ message e = None
  | Some COMMS_EVENT_TYPE.NDEF_MESSAGE =>
      exists msg, data e = Some (Parsed msg) /\ message e = None
  | Some COMMS_EVENT_TYPE.INFORMATION =>
      exists text, data e = None /\ message e = Some text /\ text <> ""
  | _ => False
  end.

(** What removes the stuffing: a 0xE5 that stands before a 0x4A is
    dropped. *)
Fixpoint unstuff (bytes : list Z) : list Z :=
  match bytes with
  | [] => []
  | b :: bytes' =>
      match bytes' with
      | b' :: bytes'' =>
          if (b =? 0xE5) && (b' =? 0x4A) then b' :: unstuff bytes'' else b :: unstuff bytes'
      | [] => [b]
      end
  end.

(** *** Client *)

(** The value of a string of hexadecimal digits, upper case. *)
Definition digit_value (a : ascii) : option Z :=
  match index 0 (String a EmptyString) "0123456789ABCDEF" with
  | Some i => Some (Z.of_nat i)
  | None => None
  end.

Fixpoint hex_value (digits : string) (acc : Z) : option Z :=
  match digits with
  | EmptyString => Some acc
  | String a digits' =>
      match digit_value a with
      | Some d => hex_value digits' (acc * 16 + d)
      | None => None
      end
  end.

End MoreProperties.

(* ------------------------------------------------------------------ *)
(** ** Facts about the JavaScript primitives *)

Module JSFacts.

Lemma to_int32_small (z : Z) : - 2 ^ 31 <= z < 2 ^ 31 -> JS.to_int32 z = z.
Proof.
  intros H. unfold JS.to_int32.
  rewrite Z.mod_small by lia. lia.
Qed.

(** A property checked on each of the 256 byte values holds of every byte. *)
Lemma forall_bytes (f : Z -> bool) :
  forallb (fun n => f (Z.of_nat n)) (seq 0 256) = true ->
  forall b, 0 <= b < 256 -> f b = true.
Proof.
  intros H b Hb.
  rewrite forallb_forall in H.
  specialize (H (Z.to_nat b)).
  rewrite Z2Nat.id in H by lia.
  apply H. apply in_seq. lia.
Qed.

Lemma charCode_byte (a : ascii) : 0 <= JS.charCode a < 256.
Proof.
  unfold JS.charCode.
  pose proof (N_ascii_bounded a). lia.
Qed.

Lemma fromCharCode_charCode (a : ascii) : JS.fromCharCode (Some (JS.charCode a)) = a.
Proof.
  unfold JS.fromCharCode.
  rewrite Z.mod_small by apply charCode_byte.
  unfold JS.charCode. rewrite N2Z.id. apply ascii_N_embedding.
Qed.

(** A literal prefix is matched by the pattern made of the same text. *)
Lemma pattern_char_refl (a : ascii) : JS.pattern_char a a = true.
Proof.
  unfold JS.pattern_char.
  destruct (Ascii.eqb a ".") eqn:E.
  - apply Ascii.eqb_eq in E. subst a. reflexivity.
  - apply Ascii.eqb_refl.
Qed.

Lemma prefix_match_anchored (body s : string) :
  String.prefix body s = true -> JS.match_anchored body s = true.
Proof.
  revert s. induction body as [|p body IH]; intros s H; [reflexivity|].
  destruct s as [|c s]; simpl in *; [discriminate|].
  destruct (ascii_dec p c) as [->|]; [|discriminate].
  rewrite pattern_char_refl. simpl. apply IH. exact H.
Qed.

Lemma len_app {A} (a b : list A) : JS.len (a ++ b) = JS.len a + JS.len b.
Proof. unfold JS.len. rewrite length_app. lia. Qed.

Lemma len_nonneg {A} (a : list A) : 0 <= JS.len a.
Proof. unfold JS.len. lia. Qed.

Lemma len_cons {A} (x : A) (l : list A) : JS.len (x :: l) = 1 + JS.len l.
Proof. unfold JS.len. cbn [List.length]. lia. Qed.

Ltac len_norm :=
  repeat (rewrite len_app || rewrite len_cons); change (JS.len (@nil Z)) with 0.

Lemma get_app_offset {A} (a l : list A) (k : Z) :
  0 <= k -> JS.get (a ++ l) (JS.len a + k) = JS.get l k.
Proof.
  intros Hk. unfold JS.get, JS.len.
  destruct (Z.ltb_spec (Z.of_nat (List.length a) + k) 0); [lia|].
  destruct (Z.ltb_spec k 0); [lia|].
  rewrite nth_error_app2 by lia.
  f_equal. lia.
Qed.

Lemma get_app_here {A} (a : list A) (x : A) (l : list A) :
  JS.get (a ++ x :: l) (JS.len a) = Some x.
Proof.
  rewrite <- (Z.add_0_r (JS.len a)). rewrite get_app_offset by lia. reflexivity.
Qed.

Lemma get_negative {A} (l : list A) (i : Z) : i < 0 -> JS.get l i = None.
Proof.
  intros Hi. unfold JS.get. destruct (Z.ltb_spec i 0); [reflexivity | lia].
Qed.

Lemma get_inside {A} (l : list A) (i : Z) (x : A) :
  JS.get l i = Some x -> 0 <= i < JS.len l.
Proof.
  unfold JS.get, JS.len. destruct (Z.ltb_spec i 0) as [Hneg | Hpos]; [discriminate|].
  intros Hget. assert (Hlt : (Z.to_nat i < List.length l)%nat)
    by (apply nth_error_Some; rewrite Hget; discriminate).
  lia.
Qed.

Lemma get_defined {A} (l : list A) (i : Z) :
  0 <= i < JS.len l -> exists x, JS.get l i = Some x.
Proof.
  unfold JS.get, JS.len. intros Hi. destruct (Z.ltb_spec i 0); [lia|].
  destruct (nth_error l (Z.to_nat i)) as [x|] eqn:E; [exists x; reflexivity|].
  apply nth_error_None in E. lia.
Qed.

(** A slice that takes the middle of three pieces. *)
Lemma slice_middle {A} (a b c : list A) :
  JS.slice (a ++ b ++ c) (JS.len a) (JS.len a + JS.len b) = b.
Proof.
  unfold JS.slice, JS.clamp_index.
  rewrite !len_app.
  pose proof (len_nonneg a). pose proof (len_nonneg b). pose proof (len_nonneg c).
  destruct (Z.ltb_spec (JS.len a) 0); [lia|].
  destruct (Z.ltb_spec (JS.len a + JS.len b) 0); [lia|].
  rewrite !Z.min_l by lia.
  replace (Z.max (JS.len a + JS.len b - JS.len a) 0) with (JS.len b) by lia.
  unfold JS.len. rewrite !Nat2Z.id.
  rewrite skipn_app, skipn_all, Nat.sub_diag. simpl.
  rewrite firstn_app, firstn_all, Nat.sub_diag. simpl. apply app_nil_r.
Qed.

(** An [or] of a value shifted left by [k] bits and a value below [2^k] is
    their sum. *)
Lemma lor_high_low (hi lo k : Z) :
  0 <= k -> 0 <= lo < 2 ^ k -> Z.lor (hi * 2 ^ k) lo = hi * 2 ^ k + lo.
Proof.
  intros Hk Hlo.
  rewrite <- Z.add_lor_land.
  assert (Hland : Z.land (hi * 2 ^ k) lo = 0).
  { apply Z.bits_inj'. intros n Hn.
    rewrite Z.land_spec, Z.bits_0.
    destruct (Z.lt_ge_cases n k).
    - rewrite Z.mul_pow2_bits_low by lia. reflexivity.
    - rewrite <- (Z.mod_small lo (2 ^ k)) by lia.
      rewrite Z.mod_pow2_bits_high by lia. apply andb_false_r. }
  lia.
Qed.

(** The two length bytes of a frame give the length back. *)
Lemma be16 (n : Z) :
  0 <= n < 65536 ->
  JS.or (JS.shl (JS.to_int32 (n / 256)) 8) (JS.to_int32 (n mod 256)) = n.
Proof.
  intros Hn.
  assert (Hhi : 0 <= n / 256 < 256) by (split; [apply Z.div_pos | apply Z.div_lt_upper_bound]; lia).
  assert (Hlo : 0 <= n mod 256 < 256) by (apply Z.mod_pos_bound; lia).
  unfold JS.or, JS.shl.
  repeat rewrite (to_int32_small (n / 256)) by lia.
  repeat rewrite (to_int32_small (n mod 256)) by lia.
  rewrite Z.shiftl_mul_pow2 by lia.
  repeat rewrite (to_int32_small (n / 256 * 2 ^ 8)) by lia.
  rewrite lor_high_low by lia.
  pose proof (Z.div_mod n 256). lia.
Qed.

Lemma and_sar_byte (L k : Z) :
  0 <= L < 2 ^ 31 -> 0 <= k ->
  JS.and (JS.sar L k) 0xff = (L / 2 ^ k) mod 256.
Proof.
  intros HL Hk. unfold JS.and, JS.sar.
  rewrite (to_int32_small L) by lia.
  rewrite Z.shiftr_div_pow2 by lia.
  assert (0 <= L / 2 ^ k <= L).
  { split; [apply Z.div_pos; lia|]. apply Z.div_le_upper_bound; [lia|].
    assert (1 <= 2 ^ k) by lia. nia. }
  rewrite (to_int32_small (L / 2 ^ k)), (to_int32_small 255) by lia.
  change 255 with (Z.ones 8). rewrite Z.land_ones by lia. reflexivity.
Qed.

(** The four length bytes of a long record give a length below [2^31]
    back. *)
Lemma be32 (L : Z) :
  0 <= L < 2 ^ 31 ->
  JS.or (JS.or (JS.or (JS.shl (JS.to_int32 (JS.and (JS.sar L 24) 0xff)) 24)
                      (JS.shl (JS.to_int32 (JS.and (JS.sar L 16) 0xff)) 16))
               (JS.shl (JS.to_int32 (JS.and (JS.sar L 8) 0xff)) 8))
        (JS.to_int32 (JS.and L 0xff)) = L.
Proof.
  intros HL.
  assert (H0 : JS.and L 0xff = (L / 2 ^ 0) mod 256).
  { rewrite <- and_sar_byte by lia. unfold JS.sar. rewrite Z.shiftr_0_r.
    unfold JS.and. rewrite (to_int32_small (JS.to_int32 L)); [reflexivity|].
    rewrite to_int32_small by lia. lia. }
  rewrite H0, !and_sar_byte by lia.
  change (2 ^ 0) with 1. rewrite Z.div_1_r.
  set (b3 := (L / 2 ^ 24) mod 256).
  set (b2 := (L / 2 ^ 16) mod 256).
  set (b1 := (L / 2 ^ 8) mod 256).
  set (b0 := L mod 256).
  assert (H3 : 0 <= b3 < 128).
  { subst b3. assert (0 <= L / 2 ^ 24 < 128)
      by (split; [apply Z.div_pos | apply Z.div_lt_upper_bound]; lia).
    rewrite Z.mod_small by lia. lia. }
  assert (H2 : 0 <= b2 < 256) by (apply Z.mod_pos_bound; lia).
  assert (H1 : 0 <= b1 < 256) by (apply Z.mod_pos_bound; lia).
  assert (H0' : 0 <= b0 < 256) by (apply Z.mod_pos_bound; lia).
  unfold JS.or, JS.shl.
  rewrite !Z.shiftl_mul_pow2 by lia.
  repeat rewrite (to_int32_small b3) by lia.
  repeat rewrite (to_int32_small b2) by lia.
  repeat rewrite (to_int32_small b1) by lia.
  repeat rewrite (to_int32_small b0) by lia.
  repeat rewrite (to_int32_small (b3 * 2 ^ 24)) by lia.
  repeat rewrite (to_int32_small (b2 * 2 ^ 16)) by lia.
  repeat rewrite (to_int32_small (b1 * 2 ^ 8)) by lia.
  rewrite (lor_high_low b3 (b2 * 2 ^ 16) 24) by lia.
  repeat rewrite (to_int32_small (b3 * 2 ^ 24 + b2 * 2 ^ 16)) by lia.
  replace (b3 * 2 ^ 24 + b2 * 2 ^ 16) with ((b3 * 2 ^ 8 + b2) * 2 ^ 16) by lia.
  rewrite (lor_high_low _ (b1 * 2 ^ 8) 16) by lia.
  repeat rewrite (to_int32_small ((b3 * 2 ^ 8 + b2) * 2 ^ 16 + b1 * 2 ^ 8)) by lia.
  replace ((b3 * 2 ^ 8 + b2) * 2 ^ 16 + b1 * 2 ^ 8)
    with (((b3 * 2 ^ 8 + b2) * 2 ^ 8 + b1) * 2 ^ 8) by lia.
  rewrite (lor_high_low _ b0 8) by lia.
  subst b3 b2 b1 b0.
  change (2 ^ 24) with 16777216 in *. change (2 ^ 16) with 65536 in *.
  change (2 ^ 8) with 256 in *. change (2 ^ 31) with 2147483648 in *.
  Z.div_mod_to_equations. lia.
Qed.

Lemma string_app_assoc (a b c : string) : ((a ++ b) ++ c)%string = (a ++ (b ++ c))%string.
Proof.
  induction a as [|x a IH]; simpl; [reflexivity | rewrite IH; reflexivity].
Qed.

Lemma string_app_nil_r (a : string) : (a ++ "")%string = a.
Proof.
  induction a as [|x a IH]; simpl; [reflexivity | rewrite IH; reflexivity].
Qed.

End JSFacts.

(* ------------------------------------------------------------------ *)
(** ** Facts about ndef.js *)

Module NDEFFacts.

Import NDEF Properties JSFacts.

(** *** Header *)

Lemma Header_toByte_fromByte (b : Z) :
  0 <= b < 256 -> Header_toByte (Header_fromByte (Some b)) = b.
Proof.
  intros Hb. apply Z.eqb_eq.
  apply (forall_bytes (fun b => Header_toByte (Header_fromByte (Some b)) =? b)); [|exact Hb].
  vm_compute. reflexivity.
Qed.

(** C5. For every byte value [b], decoding [b] into a header, packing the
    header into a byte and decoding that byte again gives the header (five
    flags and TNF) that decoding [b] gave. *)
Theorem Header_fromByte_toByte_fromByte (b : Z) :
  0 <= b < 256 ->
  Header_fromByte (Some (Header_toByte (Header_fromByte (Some b)))) = Header_fromByte (Some b).
Proof.
  intros Hb. rewrite Header_toByte_fromByte by exact Hb. reflexivity.
Qed.

Lemma Header_fromByte_toByte_fromByte_witness :
  0 <= 0xD1 < 256 /\
  Header_fromByte (Some (Header_toByte (Header_fromByte (Some 0xD1))))
  = Header_fromByte (Some 0xD1).
Proof.
  split; [lia | apply Header_fromByte_toByte_fromByte; lia].
Defined.

(** *** The URI example *)

(** C6. [new URIRecord("http://www.example.com")] has the payload 1 followed
    by the characters of "example.com", and the message of that one record
    is written as 0xD1, type length 1, payload length 12, 'U', and the
    twelve payload bytes. *)
Theorem URIRecord_example :
  Record_bytes (URIRecord_reset "http://www.example.com")
  = [1; JS.charCode "e"; JS.charCode "x"; JS.charCode "a"; JS.charCode "m";
     JS.charCode "p"; JS.charCode "l"; JS.charCode "e"; JS.charCode ".";
     JS.charCode "c"; JS.charCode "o"; JS.charCode "m"]
  /\ Message_getBytes (mkMessage [URIRecord_reset "http://www.example.com"])
     = [0xD1; 1; 12; JS.charCode "U"]
       ++ Record_bytes (URIRecord_reset "http://www.example.com").
Proof.
  split; vm_compute; reflexivity.
Qed.

(** *** Record.parse, read by read *)

Lemma string_app_String (a : string) (x : ascii) (b : string) :
  ((a ++ String x "") ++ b)%string = (a ++ String x b)%string.
Proof. rewrite string_app_assoc. reflexivity. Qed.

Lemma next_chars_span (data : list Z) (count : nat) :
  forall recordType c,
    next_chars data count recordType c
    = (Ok (recordType ++ chars_at data (ptr c) count)%string,
       mkCursor (ptr c + Z.of_nat count) (reads c ++ span (ptr c) count)).
Proof.
  induction count as [|count IH]; intros recordType c.
  - simpl. unfold ret. rewrite string_app_nil_r, Z.add_0_r, app_nil_r.
    destruct c; reflexivity.
  - cbn [next_chars]. unfold bind at 1. unfold next at 1.
    rewrite IH. cbn [ptr reads chars_at span].
    rewrite string_app_String, <- app_assoc.
    f_equal. f_equal. lia.
Qed.

Lemma Record_parse_direct_eq (data : list Z) (offset : Z) :
  Record_parse data offset = Record_parse_direct data offset.
Proof.
  unfold Record_parse, Record_parse_run, Record_parse_from, Record_parse_direct.
  unfold bind at 1. unfold current at 1. cbn [ptr].
  destruct (JS.len data - offset <? 4); [reflexivity|].
  unfold bind at 1. unfold next at 1. cbn [ptr reads].
  unfold bind at 1. unfold next at 1. cbn [ptr reads].
  unfold bind at 1.
  destruct (truthy (shortRecord (Header_of_byte (JS.get data offset)))).
  - unfold bind at 1. unfold next at 1. unfold ret at 1. cbn [ptr reads].
    unfold bind at 1. rewrite next_chars_span. cbn [ptr reads].
    unfold bind at 1. unfold current at 1. cbn [ptr].
    replace (offset + 1 + 1) with (offset + 2) by lia.
    replace (offset + 2 + 1) with (offset + 3) by lia.
    destruct (JS.len data - _ <? _); [reflexivity|].
    destruct (find_type typeKeys _); reflexivity.
  - unfold bind at 1. unfold next at 1. cbn [ptr reads].
    unfold bind at 1. unfold next at 1. cbn [ptr reads].
    unfold bind at 1. unfold next at 1. cbn [ptr reads].
    unfold bind at 1. unfold next at 1. unfold ret at 1. cbn [ptr reads].
    unfold bind at 1. rewrite next_chars_span. cbn [ptr reads].
    unfold bind at 1. unfold current at 1. cbn [ptr].
    replace (offset + 1 + 1) with (offset + 2) by lia.
    replace (offset + 2 + 1) with (offset + 3) by lia.
    replace (offset + 3 + 1) with (offset + 4) by lia.
    replace (offset + 4 + 1) with (offset + 5) by lia.
    replace (offset + 5 + 1) with (offset + 6) by lia.
    destruct (JS.len data - _ <? _); [reflexivity|].
    destruct (find_type typeKeys _); reflexivity.
Qed.

(** The indices read depend on the header and the type length only, not
    on how many bytes the buffer has beyond the first four. *)
Lemma Record_parse_reads_span (data : list Z) (offset : Z) :
  Record_parse_reads data offset
  = if JS.len data - offset <? 4 then [] else span offset (fields_read data offset).
Proof.
  unfold Record_parse_reads, Record_parse_run, Record_parse_from, fields_read.
  unfold bind at 1. unfold current at 1. cbn [ptr].
  destruct (JS.len data - offset <? 4); [reflexivity|].
  unfold bind at 1. unfold next at 1. cbn [ptr reads].
  unfold bind at 1. unfold next at 1. cbn [ptr reads].
  unfold bind at 1.
  destruct (truthy (shortRecord (Header_of_byte (JS.get data offset)))).
  - unfold bind at 1. unfold next at 1. unfold ret at 1. cbn [ptr reads].
    unfold bind at 1. rewrite next_chars_span. cbn [ptr reads].
    unfold bind at 1. unfold current at 1. cbn [ptr].
    replace (offset + 1 + 1) with (offset + 2) by lia.
    replace (offset + 2 + 1) with (offset + 3) by lia.
    assert (Hreads : ((([] ++ [offset]) ++ [offset + 1]) ++ [offset + 2])
                       ++ span (offset + 3) (rounds (JS.get data (offset + 1)))
                     = span offset (3 + rounds (JS.get data (offset + 1)))).
    { cbn [span app Nat.add].
      replace (offset + 1 + 1) with (offset + 2) by lia.
      replace (offset + 2 + 1) with (offset + 3) by lia. reflexivity. }
    destruct (JS.len data - _ <? _); [exact Hreads|].
    destruct (find_type typeKeys _); exact Hreads.
  - unfold bind at 1. unfold next at 1. cbn [ptr reads].
    unfold bind at 1. unfold next at 1. cbn [ptr reads].
    unfold bind at 1. unfold next at 1. cbn [ptr reads].
    unfold bind at 1. unfold next at 1. unfold ret at 1. cbn [ptr reads].
    unfold bind at 1. rewrite next_chars_span. cbn [ptr reads].
    unfold bind at 1. unfold current at 1. cbn [ptr].
    replace (offset + 1 + 1) with (offset + 2) by lia.
    replace (offset + 2 + 1) with (offset + 3) by lia.
    replace (offset + 3 + 1) with (offset + 4) by lia.
    replace (offset + 4 + 1) with (offset + 5) by lia.
    replace (offset + 5 + 1) with (offset + 6) by lia.
    assert (Hreads : (((((([] ++ [offset]) ++ [offset + 1]) ++ [offset + 2])
                          ++ [offset + 3]) ++ [offset + 4]) ++ [offset + 5])
                       ++ span (offset + 6) (rounds (JS.get data (offset + 1)))
                     = span offset (6 + rounds (JS.get data (offset + 1)))).
    { cbn [span app Nat.add].
      replace (offset + 1 + 1) with (offset + 2) by lia.
      replace (offset + 2 + 1) with (offset + 3) by lia.
      replace (offset + 3 + 1) with (offset + 4) by lia.
      replace (offset + 4 + 1) with (offset + 5) by lia.
      replace (offset + 5 + 1) with (offset + 6) by lia. reflexivity. }
    destruct (JS.len data - _ <? _); [exact Hreads|].
    destruct (find_type typeKeys _); exact Hreads.
Qed.

Lemma chars_at_charCodes (s : string) :
  forall a rest,
    chars_at (a ++ JS.charCodes s ++ rest) (JS.len a) (String.length s) = s.
Proof.
  induction s as [|x s IH]; intros a rest; [reflexivity|].
  change (JS.charCodes (String x s)) with (JS.charCode x :: JS.charCodes s).
  cbn [chars_at String.length app].
  rewrite get_app_here, fromCharCode_charCode.
  f_equal.
  replace (a ++ JS.charCode x :: JS.charCodes s ++ rest)
    with ((a ++ [JS.charCode x]) ++ JS.charCodes s ++ rest)
    by (rewrite <- app_assoc; reflexivity).
  replace (JS.len a + 1) with (JS.len (a ++ [JS.charCode x]))
    by (rewrite len_app; reflexivity).
  apply IH.
Qed.

Lemma find_type_registered (r : Record) :
  find_type typeKeys (Record_type r)
  = Some (match r with
          | TextRecord _ _ _ => TextRecord_parse
          | URIRecord _ _ => URIRecord_parse
          | AndroidApplicationRecord _ _ => AndroidApplicationRecord_parse
          end).
Proof. destruct r; reflexivity. Qed.

Lemma header_short_bit (r : Record) (first last short : bool) :
  truthy (shortRecord (Header_of_byte (Some (Header_toByte
    (mkHeader (FBool first) (FBool last) (chunked Header_new)
              (FBool short) (IDLength Header_new) (Record_TNF r))))))
  = short.
Proof. destruct r, first, last, short; reflexivity. Qed.

Lemma strlen_rounds (s : string) : rounds (Some (JS.strlen s)) = String.length s.
Proof. unfold rounds, JS.strlen. apply Nat2Z.id. Qed.

Lemma Record_parse_getBytes (pre rest : list Z) (r : Record) (first last : bool) :
  JS.len (Record_bytes r) < 2 ^ 31 ->
  Record_parse (pre ++ Record_getBytes r first last ++ rest) (JS.len pre)
  = Ok (JS.len (Record_getBytes r first last), reparsed r).
Proof.
  intros Hsmall.
  pose proof (len_nonneg (Record_bytes r)) as Hpos.
  pose proof (len_nonneg rest) as Hrest.
  rewrite Record_parse_direct_eq.
  unfold Record_getBytes.
  set (payload := Record_bytes r) in *.
  set (short := JS.len payload <? 0x100).
  set (hb := Header_toByte _).
  assert (Hbit : truthy (shortRecord (Header_of_byte (Some hb))) = short)
    by apply header_short_bit.
  cbn [truthy shortRecord].
  assert (Htype : 0 < JS.len (JS.charCodes (Record_type r)))
    by (destruct r; reflexivity).
  assert (Hcodes : JS.len (JS.charCodes (Record_type r)) = Z.of_nat (String.length (Record_type r)))
    by (destruct r; reflexivity).
  destruct short eqn:Hshort; subst short.
  - (* short record *)
    apply Z.ltb_lt in Hshort.
    change (([hb; JS.strlen (Record_type r)] ++ [JS.len payload])
              ++ JS.charCodes (Record_type r))
      with (hb :: JS.strlen (Record_type r) :: JS.len payload :: JS.charCodes (Record_type r)).
    set (data := pre ++ _).
    assert (Hlen : JS.len data
                   = JS.len pre + 3 + JS.len (JS.charCodes (Record_type r))
                     + JS.len payload + JS.len rest).
    { subst data. len_norm. lia. }
    assert (H0 : JS.get data (JS.len pre) = Some hb) by apply get_app_here.
    assert (H1 : JS.get data (JS.len pre + 1) = Some (JS.strlen (Record_type r)))
      by (subst data; rewrite get_app_offset by lia; reflexivity).
    assert (H2 : JS.get data (JS.len pre + 2) = Some (JS.len payload))
      by (subst data; rewrite get_app_offset by lia; reflexivity).
    assert (Hsplit : data = (pre ++ [hb; JS.strlen (Record_type r); JS.len payload])
                            ++ JS.charCodes (Record_type r) ++ (payload ++ rest)).
    { subst data. rewrite <- !app_assoc. reflexivity. }
    assert (Hp : JS.len pre + 3 = JS.len (pre ++ [hb; JS.strlen (Record_type r); JS.len payload]))
      by (len_norm; lia).
    unfold Record_parse_direct.
    rewrite H0, H1, H2, Hbit, strlen_rounds.
    destruct (Z.ltb_spec (JS.len data - JS.len pre) 4); [lia|].
    cbv zeta.
    replace (chars_at data (JS.len pre + 3) (String.length (Record_type r)))
      with (Record_type r)
      by (rewrite Hsplit, Hp; symmetry; apply chars_at_charCodes).
    destruct (Z.ltb_spec (JS.len data - (JS.len pre + 3 + Z.of_nat (String.length (Record_type r))))
                          (JS.len payload)); [lia|].
    rewrite find_type_registered.
    f_equal. f_equal.
    + len_norm. lia.
    + assert (Hslice : JS.slice data (JS.len pre + 3 + Z.of_nat (String.length (Record_type r)))
                (JS.len pre + 3 + Z.of_nat (String.length (Record_type r)) + JS.len payload)
              = payload).
      { replace data with ((pre ++ [hb; JS.strlen (Record_type r); JS.len payload]
                                ++ JS.charCodes (Record_type r)) ++ payload ++ rest)
          by (subst data; rewrite <- !app_assoc; reflexivity).
        replace (JS.len pre + 3 + Z.of_nat (String.length (Record_type r)))
          with (JS.len (pre ++ [hb; JS.strlen (Record_type r); JS.len payload]
                            ++ JS.charCodes (Record_type r)))
          by (len_norm; lia).
        apply slice_middle. }
      rewrite Hslice. subst payload. destruct r; reflexivity.
  - (* long record *)
    apply Z.ltb_ge in Hshort.
    set (b3 := JS.and (JS.sar (JS.len payload) 24) 0xff).
    set (b2 := JS.and (JS.sar (JS.len payload) 16) 0xff).
    set (b1 := JS.and (JS.sar (JS.len payload) 8) 0xff).
    set (b0 := JS.and (JS.len payload) 0xff).
    change (([hb; JS.strlen (Record_type r)] ++ [b3; b2; b1; b0])
              ++ JS.charCodes (Record_type r))
      with (hb :: JS.strlen (Record_type r) :: b3 :: b2 :: b1 :: b0
               :: JS.charCodes (Record_type r)).
    set (data := pre ++ _).
    assert (Hlen : JS.len data
                   = JS.len pre + 6 + JS.len (JS.charCodes (Record_type r))
                     + JS.len payload + JS.len rest).
    { subst data. len_norm. lia. }
    assert (H0 : JS.get data (JS.len pre) = Some hb) by apply get_app_here.
    assert (H1 : JS.get data (JS.len pre + 1) = Some (JS.strlen (Record_type r)))
      by (subst data; rewrite get_app_offset by lia; reflexivity).
    assert (H2 : JS.get data (JS.len pre + 2) = Some b3)
      by (subst data; rewrite get_app_offset by lia; reflexivity).
    assert (H3 : JS.get data (JS.len pre + 3) = Some b2)
      by (subst data; rewrite get_app_offset by lia; reflexivity).
    assert (H4 : JS.get data (JS.len pre + 4) = Some b1)
      by (subst data; rewrite get_app_offset by lia; reflexivity).
    assert (H5 : JS.get data (JS.len pre + 5) = Some b0)
      by (subst data; rewrite get_app_offset by lia; reflexivity).
    assert (Hsplit : data = (pre ++ [hb; JS.strlen (Record_type r); b3; b2; b1; b0])
                            ++ JS.charCodes (Record_type r) ++ (payload ++ rest)).
    { subst data. rewrite <- !app_assoc. reflexivity. }
    assert (Hp : JS.len pre + 6
                 = JS.len (pre ++ [hb; JS.strlen (Record_type r); b3; b2; b1; b0]))
      by (len_norm; lia).
    unfold Record_parse_direct.
    rewrite H0, H1, H2, H3, H4, H5, Hbit, strlen_rounds.
    cbn [JS.int32_of]. subst b3 b2 b1 b0. rewrite be32 by lia.
    destruct (Z.ltb_spec (JS.len data - JS.len pre) 4); [lia|].
    cbv zeta.
    replace (chars_at data (JS.len pre + 6) (String.length (Record_type r)))
      with (Record_type r)
      by (rewrite Hsplit, Hp; symmetry; apply chars_at_charCodes).
    destruct (Z.ltb_spec (JS.len data - (JS.len pre + 6 + Z.of_nat (String.length (Record_type r))))
                          (JS.len payload)); [lia|].
    rewrite find_type_registered.
    f_equal. f_equal.
    + len_norm. lia.
    + assert (Hslice : JS.slice data (JS.len pre + 6 + Z.of_nat (String.length (Record_type r)))
                (JS.len pre + 6 + Z.of_nat (String.length (Record_type r)) + JS.len payload)
              = payload).
      { replace data with ((pre ++ (hb :: JS.strlen (Record_type r)
                                       :: JS.and (JS.sar (JS.len payload) 24) 0xff
                                       :: JS.and (JS.sar (JS.len payload) 16) 0xff
                                       :: JS.and (JS.sar (JS.len payload) 8) 0xff
                                       :: JS.and (JS.len payload) 0xff
                                       :: JS.charCodes (Record_type r))) ++ payload ++ rest)
          by (subst data; rewrite <- !app_assoc; reflexivity).
        replace (JS.len pre + 6 + Z.of_nat (String.length (Record_type r)))
          with (JS.len (pre ++ (hb :: JS.strlen (Record_type r)
                                       :: JS.and (JS.sar (JS.len payload) 24) 0xff
                                       :: JS.and (JS.sar (JS.len payload) 16) 0xff
                                       :: JS.and (JS.sar (JS.len payload) 8) 0xff
                                       :: JS.and (JS.len payload) 0xff
                                       :: JS.charCodes (Record_type r))))
          by (len_norm; lia).
        apply slice_middle. }
      rewrite Hslice. subst payload. destruct r; reflexivity.
Qed.

(** *** Messages *)

Lemma getBytes_loop_app (n : Z) (rest : list Record) :
  forall i bytes, getBytes_loop n i rest bytes = bytes ++ getBytes_loop n i rest [].
Proof.
  induction rest as [|r rest IH]; intros i bytes; cbn [getBytes_loop].
  - rewrite app_nil_r. reflexivity.
  - rewrite IH. rewrite (IH (i + 1) ([] ++ _)). rewrite app_assoc. reflexivity.
Qed.

Lemma getBytes_nonempty (r : Record) (first last : bool) :
  0 < JS.len (Record_getBytes r first last).
Proof.
  unfold Record_getBytes. cbn zeta. len_norm.
  pose proof (len_nonneg (Record_bytes r)).
  pose proof (len_nonneg (JS.charCodes (Record_type r))).
  match goal with |- context [if ?c then _ else _] => destruct c end; len_norm; lia.
Qed.

Lemma reparsed_same (r : Record) :
  minimum_shape r ->
  Record_type (reparsed r) = Record_type r /\ Record_bytes (reparsed r) = Record_bytes r.
Proof.
  destruct r as [text lang bytes | URI bytes | packageName bytes]; simpl; intros Hshape.
  - unfold TextRecord_parse.
    destruct (Z.ltb_spec (JS.len bytes) 3); [lia|]. split; reflexivity.
  - unfold URIRecord_parse.
    destruct (Z.ltb_spec (JS.len bytes) 1); [lia|]. split; reflexivity.
  - split; reflexivity.
Qed.

Lemma parse_loop_getBytes (n : Z) (rest : list Record) :
  forall i pre recs fuel,
    Forall (fun r => JS.len (Record_bytes r) < 2 ^ 31) rest ->
    (List.length rest < fuel)%nat ->
    parse_loop fuel (pre ++ getBytes_loop n i rest []) (JS.len pre) recs
    = Returned (mkMessage (recs ++ List.map reparsed rest)).
Proof.
  induction rest as [|r rest IH]; intros i pre recs fuel Hsmall Hfuel.
  - destruct fuel as [|fuel]; [simpl in Hfuel; lia|].
    cbn [getBytes_loop parse_loop List.map]. rewrite !app_nil_r.
    rewrite Z.ltb_irrefl. reflexivity.
  - destruct fuel as [|fuel]; [simpl in Hfuel; lia|].
    inversion Hsmall as [|r' rest' Hr Hrest]; subst.
    cbn [getBytes_loop parse_loop List.map].
    rewrite getBytes_loop_app. cbn [app].
    set (enc := Record_getBytes r (i =? 0) (i =? n - 1)).
    set (tail := getBytes_loop n (i + 1) rest []).
    assert (Hlt : (JS.len pre <? JS.len (pre ++ enc ++ tail)) = true).
    { apply Z.ltb_lt. len_norm.
      pose proof (getBytes_nonempty r (i =? 0) (i =? n - 1)) as Henc.
      pose proof (len_nonneg tail). fold enc in Henc. lia. }
    rewrite Hlt.
    subst enc. rewrite Record_parse_getBytes by exact Hr.
    set (enc := Record_getBytes r (i =? 0) (i =? n - 1)).
    replace (pre ++ enc ++ tail) with ((pre ++ enc) ++ tail) by (rewrite app_assoc; reflexivity).
    replace (JS.len pre + JS.len enc) with (JS.len (pre ++ enc)) by apply len_app.
    subst tail. rewrite IH.
    + rewrite <- app_assoc. reflexivity.
    + exact Hrest.
    + simpl in Hfuel. lia.
Qed.

(** X22. For every well-formed message whose payloads have
    fewer than 2^31 bytes each, [Message.parse] of the bytes written by
    [Message.prototype.getBytes] returns (given fuel for one round a record
    and one more) a message with the same records: same order, same type
    names, same payload bytes. *)
Theorem Message_parse_getBytes (m : Message) (fuel : nat) :
  well_formed m ->
  payloads_below (2 ^ 31) m ->
  (List.length (records m) < fuel)%nat ->
  exists m',
    Message_parse fuel (Message_getBytes m) = Returned m' /\ same_records m m'.
Proof.
  intros Hwf Hsmall Hfuel.
  exists (mkMessage (List.map reparsed (records m))). split.
  - unfold Message_parse, Message_getBytes.
    apply (parse_loop_getBytes (JS.len (records m)) (records m) 0 [] [] fuel Hsmall Hfuel).
  - unfold same_records. cbn [records]. rewrite !map_map.
    split; apply map_ext_in; intros r Hin;
      apply reparsed_same;
      apply (proj1 (Forall_forall _ _) Hwf r Hin).
Qed.

Lemma example_message_well_formed : well_formed example_message.
Proof.
  repeat constructor; try discriminate; vm_compute; discriminate.
Qed.

Lemma example_message_small : payloads_below (2 ^ 31) example_message.
Proof. repeat constructor. Qed.

Lemma Message_parse_getBytes_witness :
  well_formed example_message
  /\ payloads_below (2 ^ 31) example_message
  /\ (List.length (records example_message) < 3)%nat
  /\ exists m',
       Message_parse 3 (Message_getBytes example_message) = Returned m'
       /\ same_records example_message m'.
Proof.
  split; [exact example_message_well_formed|].
  split; [exact example_message_small|].
  split; [simpl; lia|].
  apply Message_parse_getBytes;
    [exact example_message_well_formed | exact example_message_small | simpl; lia].
Defined.

(** The bytes of a message of one text record with 2^31 payload bytes. *)
Lemma getBytes_big (text lang : string) (payload : list Z) :
  JS.len payload = 2 ^ 31 ->
  Message_getBytes (mkMessage [TextRecord text lang payload])
  = [0xC1; 1; 0x80; 0; 0; 0; 0x54] ++ payload.
Proof.
  intros Hlen.
  unfold Message_getBytes. cbn [records getBytes_loop].
  change (JS.len [TextRecord text lang payload]) with 1.
  unfold Record_getBytes. cbn [Record_bytes Record_TNF Record_type].
  rewrite Hlen. reflexivity.
Qed.

Lemma Record_parse_big (payload : list Z) :
  JS.len payload = 2 ^ 31 ->
  exists record,
    Record_parse ([0xC1; 1; 0x80; 0; 0; 0; 0x54] ++ payload) 0
    = Ok (7 - 2 ^ 31, record).
Proof.
  intros Hlen.
  rewrite Record_parse_direct_eq. unfold Record_parse_direct.
  assert (Hdata : JS.len ([0xC1; 1; 0x80; 0; 0; 0; 0x54] ++ payload) = 7 + 2 ^ 31)
    by (len_norm; lia).
  rewrite Hdata.
  eexists. reflexivity.
Qed.

Lemma Record_parse_before_buffer (data : list Z) (offset : Z) :
  offset <= -6 -> 4 <= JS.len data - offset ->
  Record_parse data offset = Throw (UnsupportedRecordType "").
Proof.
  intros Hoff Hlen. pose proof (len_nonneg data) as Hdata.
  rewrite Record_parse_direct_eq. unfold Record_parse_direct.
  destruct (Z.ltb_spec (JS.len data - offset) 4); [lia|].
  rewrite !get_negative by lia.
  cbn -[Z.sub Z.add JS.len JS.or JS.shl].
  change (JS.or (JS.or (JS.or (JS.shl 0 24) (JS.shl 0 16)) (JS.shl 0 8)) 0) with 0.
  destruct (Z.ltb_spec (JS.len data - (offset + 6 + 0)) 0); [lia|].
  reflexivity.
Qed.

Lemma Message_parse_big (text lang : string) (payload : list Z) :
  JS.len payload = 2 ^ 31 ->
  forall fuel m',
    Message_parse fuel (Message_getBytes (mkMessage [TextRecord text lang payload]))
    <> Returned m'.
Proof.
  intros Hlen fuel m'.
  rewrite getBytes_big by exact Hlen.
  destruct (Record_parse_big payload Hlen) as [record Hfirst].
  assert (Hdata : JS.len ([0xC1; 1; 0x80; 0; 0; 0; 0x54] ++ payload) = 7 + 2 ^ 31)
    by (len_norm; lia).
  unfold Message_parse.
  destruct fuel as [|fuel]; [discriminate|].
  cbn [parse_loop]. rewrite Hdata, Hfirst.
  change (0 <? 7 + 2 ^ 31) with true. cbv iota.
  destruct fuel as [|fuel]; [discriminate|].
  cbn [parse_loop]. rewrite Hdata.
  change (0 + (7 - 2 ^ 31) <? 7 + 2 ^ 31) with true. cbv iota.
  rewrite Record_parse_before_buffer; [discriminate | lia | rewrite Hdata; lia].
Qed.

Lemma big_payload_length : JS.len (repeat 0 (Z.to_nat (2 ^ 31))) = 2 ^ 31.
Proof.
  unfold JS.len. rewrite repeat_length. apply Z2Nat.id. apply Z.pow_nonneg. discriminate.
Qed.

(** C1, at its failing input. A message of one text record with 2^31
    payload bytes is well formed; [getBytes] writes the length as the four
    bytes 0x80 0 0 0, the unsigned value; [Record.parse] reads them back
    with the signed 32-bit operators as -2^31, accepts the record and
    reports that it has consumed 7 - 2^31 bytes; the scan of
    [Message.parse] moves before the buffer, where the next round throws
    "Unsupported record type": the message does not come back. *)
Theorem Message_parse_signed_length (text lang : string) (payload : list Z) :
  JS.len payload = 2 ^ 31 ->
  well_formed (mkMessage [TextRecord text lang payload])
  /\ Message_getBytes (mkMessage [TextRecord text lang payload])
     = [0xC1; 1; 0x80; 0; 0; 0; 0x54] ++ payload
  /\ (exists record,
        Record_parse (Message_getBytes (mkMessage [TextRecord text lang payload])) 0
        = Ok (7 - 2 ^ 31, record))
  /\ (forall fuel,
        Message_parse (S (S fuel)) (Message_getBytes (mkMessage [TextRecord text lang payload]))
        = Threw (UnsupportedRecordType ""))
  /\ ~ roundtrips (mkMessage [TextRecord text lang payload]).
Proof.
  intros Hlen.
  split.
  { unfold well_formed. cbn [records]. constructor; [|constructor].
    split; [discriminate|]. split.
    - unfold minimum_shape. rewrite Hlen. discriminate.
    - split; discriminate. }
  split; [apply getBytes_big; exact Hlen|].
  rewrite getBytes_big by exact Hlen.
  split; [apply Record_parse_big; exact Hlen|].
  split.
  - intros fuel.
    destruct (Record_parse_big payload Hlen) as [record Hfirst].
    assert (Hdata : JS.len ([0xC1; 1; 0x80; 0; 0; 0; 0x54] ++ payload) = 7 + 2 ^ 31)
      by (len_norm; lia).
    unfold Message_parse. cbn [parse_loop]. rewrite Hdata, Hfirst.
    change (0 <? 7 + 2 ^ 31) with true. cbv iota.
    change (0 + (7 - 2 ^ 31) <? 7 + 2 ^ 31) with true. cbv iota.
    rewrite Record_parse_before_buffer; [reflexivity | lia | rewrite Hdata; lia].
  - intros (fuel & m' & Hparse & _).
    rewrite getBytes_big in Hparse by exact Hlen.
    rewrite <- (getBytes_big text lang payload Hlen) in Hparse.
    exact (Message_parse_big text lang payload Hlen fuel m' Hparse).
Qed.

Lemma Message_parse_signed_length_witness :
  JS.len (repeat 0 (Z.to_nat (2 ^ 31))) = 2 ^ 31
  /\ well_formed big_message
  /\ Message_getBytes big_message
     = [0xC1; 1; 0x80; 0; 0; 0; 0x54] ++ repeat 0 (Z.to_nat (2 ^ 31))
  /\ (exists record, Record_parse (Message_getBytes big_message) 0 = Ok (7 - 2 ^ 31, record))
  /\ (forall fuel,
        Message_parse (S (S fuel)) (Message_getBytes big_message)
        = Threw (UnsupportedRecordType ""))
  /\ ~ roundtrips big_message.
Proof.
  split; [exact big_payload_length|].
  exact (Message_parse_signed_length "" "en" (repeat 0 (Z.to_nat (2 ^ 31))) big_payload_length).
Defined.

(** *** Buffers that [Record.parse] mishandles *)

Lemma Record_parse_looping :
  Record_parse looping_buffer 0 = Ok (0, TextRecord "" "en" [2; 101; 110]).
Proof. reflexivity. Qed.

(** C10, at its failing input. On [looping_buffer], [Record.parse] at
    offset 0 succeeds and consumes 0 bytes, so the scan of [Message.parse]
    stays at offset 0: no amount of fuel lets it return. *)
Theorem Message_parse_loops :
  Record_parse looping_buffer 0 = Ok (0, TextRecord "" "en" [2; 101; 110])
  /\ forall fuel, Message_parse fuel looping_buffer = OutOfFuel.
Proof.
  split; [exact Record_parse_looping|].
  assert (Hloop : forall fuel recs, parse_loop fuel looping_buffer 0 recs = OutOfFuel).
  { induction fuel as [|fuel IH]; intros recs; [reflexivity|].
    cbn [parse_loop]. rewrite Record_parse_looping.
    change (0 <? JS.len looping_buffer) with true. cbv iota.
    apply IH. }
  intros fuel. apply Hloop.
Qed.

(** The read of the short length is inside the buffer, as the comment in
    [Record_parse_from] says. *)
Lemma short_length_inside (data : list Z) (offset : Z) :
  4 <= JS.len data - offset ->
  truthy (shortRecord (Header_of_byte (JS.get data offset))) = true ->
  exists n, JS.get data (offset + 2) = Some n.
Proof.
  intros Hguard Hshort.
  destruct (JS.get data offset) as [b|] eqn:Hget; [|discriminate Hshort].
  apply get_inside in Hget. apply get_defined. lia.
Qed.

(** C4, at its failing inputs. On the four bytes of [truncated_buffer] the
    four-byte length field and the type name lie past the end, and
    [Record.parse] reads the indices 4, 5 and 6 before it throws; on
    [looping_buffer] the declared payload length exceeds the bytes that
    remain (none), and [Record.parse] returns a record. *)
Theorem Record_parse_reads_past_end :
  JS.len truncated_buffer = 4
  /\ Record_parse_reads truncated_buffer 0 = [0; 1; 2; 3; 4; 5; 6]
  /\ Record_parse truncated_buffer 0 = Throw (InvalidRecordLength 0 (-3))
  /\ JS.len looping_buffer = 7
  /\ Record_parse looping_buffer 0 = Ok (0, TextRecord "" "en" [2; 101; 110]).
Proof. repeat split. Qed.

(** *** URI abbreviation *)

(** The scan stops at the first index from [start] whose entry matches. *)
Lemma scan_protocols_first (count : nat) :
  forall start lc,
    let p := scan_protocols count start lc in
    start <= p <= start + Z.of_nat count
    /\ (forall j, start <= j < p -> JS.match_anchored (protocol_text j) lc = false)
    /\ (p < start + Z.of_nat count -> p <= JS.len ProtocolList ->
        JS.match_anchored (protocol_text p) lc = true).
Proof.
  induction count as [|count IH]; intros start lc; simpl.
  - split; [lia|]. split; intros; lia.
  - destruct (start <=? JS.len ProtocolList) eqn:Hle.
    + destruct (JS.match_anchored (protocol_text start) lc) eqn:Hm.
      * split; [lia|]. split; intros; [lia | exact Hm].
      * specialize (IH (start + 1) lc). simpl in IH.
        destruct IH as (Hrange & Hbefore & Hat).
        split; [lia|]. split.
        -- intros j Hj. destruct (Z.eq_dec j start) as [->|Hne]; [exact Hm|].
           apply Hbefore. lia.
        -- intros Hlt Hin. apply Hat; lia.
    + apply Z.leb_gt in Hle.
      split; [lia|]. split; intros; lia.
Qed.

Lemma find_protocol_first (uri : string) :
  let lc := JS.toLowerCase uri in
  let i := find_protocol uri in
  (1 <= i <= 35 /\ JS.match_anchored (protocol_text i) lc = true /\
   forall j, 1 <= j < i -> JS.match_anchored (protocol_text j) lc = false)
  \/ (i = 0 /\ forall j, 1 <= j <= 35 -> JS.match_anchored (protocol_text j) lc = false).
Proof.
  intros lc i. subst i. unfold find_protocol. fold lc.
  pose proof (scan_protocols_first (S (List.length ProtocolList)) 1 lc) as H.
  cbv zeta in H.
  set (p := scan_protocols (S (List.length ProtocolList)) 1 lc) in *.
  destruct H as (Hrange & Hbefore & Hat).
  change (JS.len ProtocolList) with 36 in *.
  change (Z.of_nat (S (List.length ProtocolList))) with 37 in *.
  destruct (p >=? 36) eqn:Hge.
  - right. split; [reflexivity|]. intros j Hj. apply Hbefore. lia.
  - left. assert (p < 36) by lia.
    repeat split; try lia.
    + apply Hat; lia.
    + intros j Hj. apply Hbefore. lia.
Qed.

(** C3, as amended. For every URI whose lower-cased form is matched by
    table entries only as literal prefixes, [new URIRecord(uri)] selects the
    first entry in table order among 1..35 that is a case-insensitive prefix
    of the URI (index 0 when no entry is), and its payload is that index
    followed by the URI with the prefix stripped. *)
Theorem URIRecord_reset_first_prefix (uri : string) :
  dots_on_dots (JS.toLowerCase uri) -> encodes_first_prefix uri.
Proof.
  intros Hdots. exists (find_protocol uri). split.
  - destruct (find_protocol_first uri) as [(Hi & Hm & Hbefore) | (Hi & Hnone)].
    + left. repeat split; try lia.
      * apply Hdots; [lia | exact Hm].
      * intros j Hj. unfold entry_prefix.
        destruct (String.prefix (protocol_text j) (JS.toLowerCase uri)) eqn:Hp; [|reflexivity].
        apply prefix_match_anchored in Hp. rewrite Hbefore in Hp by lia. discriminate.
    + right. split; [exact Hi|]. intros j Hj. unfold entry_prefix.
      destruct (String.prefix (protocol_text j) (JS.toLowerCase uri)) eqn:Hp; [|reflexivity].
      apply prefix_match_anchored in Hp. rewrite Hnone in Hp by lia. discriminate.
  - reflexivity.
Qed.

Lemma dots_on_dots_urn_epc : dots_on_dots (JS.toLowerCase "urn:epc:id:sgtin:1").
Proof.
  intros j Hj Hm.
  assert (Hcases : In j (List.map Z.of_nat (seq 1 35))).
  { apply in_map_iff. exists (Z.to_nat j). split; [lia | apply in_seq; lia]. }
  revert Hm. simpl in Hcases.
  repeat (destruct Hcases as [<- | Hcases];
          [vm_compute; intros Hm; first [reflexivity | discriminate Hm] |]).
  contradiction.
Qed.

Lemma URIRecord_reset_first_prefix_witness :
  dots_on_dots (JS.toLowerCase "urn:epc:id:sgtin:1")
  /\ encodes_first_prefix "urn:epc:id:sgtin:1".
Proof.
  split; [exact dots_on_dots_urn_epc |].
  apply URIRecord_reset_first_prefix. exact dots_on_dots_urn_epc.
Defined.

(** C3, as stated, fails: "urn:nfc:x" is encoded with index 19 ("urn:"),
    although entry 35 ("urn:nfc:") is a longer prefix of it. *)
Lemma URIRecord_reset_not_longest_prefix : ~ encodes_longest_prefix "urn:nfc:x".
Proof.
  intros (i & Hlongest & Henc).
  unfold encodes_with in Henc.
  assert (Hbytes : Record_bytes (URIRecord_reset "urn:nfc:x")
                   = [19; 110; 102; 99; 58; 120]) by (vm_compute; reflexivity).
  rewrite Hbytes in Henc. injection Henc as Hi _. subst i.
  destruct Hlongest as [(_ & _ & Hmax) | (Hzero & _)]; [|discriminate Hzero].
  specialize (Hmax 35 ltac:(lia) eq_refl).
  vm_compute in Hmax. apply Hmax. reflexivity.
Qed.

End NDEFFacts.

(* ------------------------------------------------------------------ *)
(** ** Facts about comms.js *)

Module CommsFacts.

Import Comms Properties JSFacts.

(** *** Frame encoder *)

Lemma escape_loop_flat_map (data : list Z) :
  forall bytes, escape_loop data bytes = bytes ++ flat_map stuffed data.
Proof.
  induction data as [|d data IH]; intros bytes; simpl.
  - rewrite app_nil_r. reflexivity.
  - rewrite IH. unfold stuffed.
    destruct (d =? 0x4a); rewrite <- ?app_assoc; reflexivity.
Qed.

(** C8. With a port open, [senddata] writes the two marker bytes 0x4A 0xE5
    and then the payload in order, each byte unchanged, with one 0xE5 put
    before every payload byte equal to 0x4A; a payload byte equal to 0xE5
    is written as it is.  (With no port open nothing is written.) *)
Theorem senddata_stuffing (written : list (list Z)) (data : list Z) :
  senddata (Some written) data
  = Some (written ++ [[0x4A; 0xE5] ++ flat_map stuffed data])
  /\ stuffed 0x4A = [0xE5; 0x4A]
  /\ stuffed 0xE5 = [0xE5]
  /\ senddata None data = None.
Proof.
  split; [|split; [reflexivity | split; reflexivity]].
  unfold senddata. rewrite escape_loop_flat_map. reflexivity.
Qed.

(** *** The response kind of a frame under way *)

Lemma classified_initial : classified initial.
Proof. exact I. Qed.

Lemma processbyte_classified (fuel : nat) (st : session) (b : Z) :
  classified st ->
  match processbyte fuel st b with
  | Next st' _ _ => classified st'
  | Unexpected _ => False
  | Stalled => True
  end.
Proof.
  unfold classified, processbyte.
  destruct (state st) eqn:Hstate; intros H.
  - (* NULL *)
    destruct (b =? RESPONSE_CODE.MESSAGE); [reflexivity|].
    destruct ((b =? RESPONSE_CODE.DATA) || (b =? RESPONSE_CODE.VERSION)); [right; reflexivity|].
    destruct ((b =? RESPONSE_CODE.ACK) || (b =? RESPONSE_CODE.ERR)
              || (b =? RESPONSE_CODE.INTERRUPT)); simpl; [exact I|].
    rewrite Hstate. exact I.
  - (* LEN *)
    destruct (JS.len (inbound st ++ [b]) =? 2); simpl; [left|]; exact H.
  - (* DATA *)
    destruct (JS.len (inbound st ++ [b]) =? inboundCount st); simpl; [|exact H].
    destruct H as [H | H]; rewrite H; simpl.
    + destruct (NDEF.Message_parse fuel (inbound st ++ [b])); exact I.
    + exact I.
  - (* INFO *)
    exact I.
Qed.

Lemma processdata_loop_classified (fuel : nat) (bytes : list Z) :
  forall st s events,
    classified st ->
    match processdata_loop fuel st bytes s events with
    | Done st' _ => classified st'
    | Raised _ _ => False
    | Hung _ => True
    end.
Proof.
  induction bytes as [|b bytes IH]; intros st s events H; simpl; [exact H|].
  pose proof (processbyte_classified fuel st b H) as Hb.
  destruct (processbyte fuel st b) as [st' emitted s' | response |]; [|contradiction|exact I].
  apply IH. exact Hb.
Qed.

Lemma feed_classified (fuel : nat) (chunks : list (list Z)) :
  forall st events,
    classified st ->
    match feed fuel st chunks events with
    | Done st' _ => classified st'
    | Raised _ _ => False
    | Hung _ => True
    end.
Proof.
  induction chunks as [|chunk chunks IH]; intros st events H; simpl; [exact H|].
  pose proof (processdata_loop_classified fuel chunk st "" [] H) as Hc.
  fold (processdata fuel st chunk) in Hc.
  destruct (processdata fuel st chunk) as [st' emitted | response emitted | emitted];
    [|contradiction|exact I].
  apply IH. exact Hc.
Qed.

(** C9. Whatever bytes are fed to [processdata] from the initial state, in
    whatever chunks, no call leaves by the throw of the DATA case: in
    every state reached, a frame that waits for its data has the response
    kind MESSAGE or DATA ([classified]), and no further byte can raise
    "Unexpected inbound response type". *)
Theorem unexpected_response_unreachable (fuel : nat) (chunks : list (list Z)) :
  match feed fuel initial chunks [] with
  | Done st _ =>
      classified st
      /\ forall fuel' b response, processbyte fuel' st b <> Unexpected response
  | Raised _ _ => False
  | Hung _ => True
  end.
Proof.
  pose proof (feed_classified fuel chunks initial [] classified_initial) as H.
  destruct (feed fuel initial chunks []) as [st events | |]; [|exact H|exact I].
  split; [exact H|].
  intros fuel' b response Hthrow.
  pose proof (processbyte_classified fuel' st b H) as Hb.
  rewrite Hthrow in Hb. exact Hb.
Qed.

(** *** Chunking *)

Lemma processdata_loop_decode (fuel : nat) (bytes : list Z) :
  forall st s events,
    processdata_loop fuel st bytes s events = flushed (decode fuel st bytes) s events.
Proof.
  induction bytes as [|b bytes IH]; intros st s events; simpl.
  - rewrite string_app_nil_r. reflexivity.
  - destruct (processbyte fuel st b) as [st' emitted s' | response |]; simpl.
    + rewrite IH.
      destruct (decode fuel st' bytes) as [[evs s2] [st2 | r |]]; simpl;
        rewrite <- ?app_assoc, ?string_app_assoc; reflexivity.
    + rewrite app_nil_r. reflexivity.
    + rewrite app_nil_r. reflexivity.
Qed.

Lemma decode_app (fuel : nat) (bytes1 bytes2 : list Z) :
  forall st,
    decode fuel st (bytes1 ++ bytes2)
    = match decode fuel st bytes1 with
      | (events1, s1, Finished st') =>
          let '(events2, s2, stop) := decode fuel st' bytes2 in
          (events1 ++ events2, (s1 ++ s2)%string, stop)
      | stopped => stopped
      end.
Proof.
  induction bytes1 as [|b bytes1 IH]; intros st; simpl.
  - destruct (decode fuel st bytes2) as [[evs s] stop]. reflexivity.
  - destruct (processbyte fuel st b) as [st' emitted s' | response |]; [|reflexivity..].
    rewrite IH.
    destruct (decode fuel st' bytes1) as [[evs1 s1] [st1 | r |]]; [|reflexivity..].
    destruct (decode fuel st1 bytes2) as [[evs2 s2] stop].
    rewrite app_assoc, string_app_assoc. reflexivity.
Qed.









(** *** Frames *)

(** While the data of a frame is short of the expected count, the bytes
    are gathered and nothing is emitted. *)
Lemma decode_data_gathers (fuel : nat) (count response : Z) (pre : list Z) :
  forall acc b,
    JS.len acc + JS.len pre + 1 = count ->
    decode fuel (mkSession COMMS_STATE.DATA acc count response) (pre ++ [b])
    = decode fuel (mkSession COMMS_STATE.DATA (acc ++ pre) count response) [b].
Proof.
  induction pre as [|x pre IH]; intros acc b Hcount.
  - rewrite app_nil_r. reflexivity.
  - change ((x :: pre) ++ [b]) with (x :: (pre ++ [b])).
    remember (decode fuel (mkSession COMMS_STATE.DATA (acc ++ x :: pre) count response) [b])
      as rest eqn:Hrest.
    cbn [decode processbyte state inbound inboundCount inboundResponse].
    assert (Hne : (JS.len (acc ++ [x]) =? count) = false).
    { apply Z.eqb_neq. rewrite len_app. change (JS.len [x]) with 1.
      change (JS.len (x :: pre)) with (Z.of_nat (S (List.length pre))) in Hcount.
      pose proof (len_nonneg pre). unfold JS.len in *. lia. }
    rewrite Hne.
    rewrite IH.
    + rewrite <- app_assoc. change ([x] ++ pre) with (x :: pre).
      rewrite <- Hrest. destruct rest as [[evs s] stop]. reflexivity.
    + rewrite len_app. change (JS.len [x]) with 1.
      change (JS.len (x :: pre)) with (Z.of_nat (S (List.length pre))) in Hcount.
      unfold JS.len in *. lia.
Qed.

(** The end of a data frame whose last byte arrives. *)
Lemma decode_data_completes (fuel : nat) (response : Z) (payload : list Z) :
  payload <> [] ->
  decode fuel (mkSession COMMS_STATE.DATA [] (JS.len payload) response) payload
  = match processbyte fuel (mkSession COMMS_STATE.DATA (removelast payload)
                                      (JS.len payload) response)
                      (last payload 0) with
    | Next st' emitted s' => (emitted ++ [], (s' ++ "")%string, Finished st')
    | Unexpected r => ([], "", Thrown r)
    | Stalled => ([], "", Stuck)
    end.
Proof.
  intros Hne.
  rewrite (app_removelast_last 0 Hne) at 2.
  rewrite decode_data_gathers.
  - reflexivity.
  - rewrite (app_removelast_last 0 Hne) at 2.
    rewrite len_app. change (JS.len [last payload 0]) with 1.
    change (JS.len []) with 0. lia.
Qed.

Lemma len_positive_nonempty {A} (l : list A) : 0 < JS.len l -> l <> [].
Proof. intros H ->. unfold JS.len in H. simpl in H. lia. Qed.

(** What a MESSAGE frame read from the idle state gives. *)
Lemma decode_message_frame (fuel : nat) (st : session) (payload : list Z) :
  state st = COMMS_STATE.NULL ->
  0 < JS.len payload < 65536 ->
  let st' := mkSession COMMS_STATE.NULL payload (JS.len payload) RESPONSE_CODE.MESSAGE in
  decode fuel st (frame_bytes (MessageFrame payload))
  = match NDEF.Message_parse fuel payload with
    | NDEF.Returned msg =>
        ([mkEvent (Some COMMS_EVENT_TYPE.NDEF_MESSAGE) (Some (Parsed msg)) None], "",
         Finished st')
    | NDEF.Threw ex => ([read_error ex], "", Finished st')
    | NDEF.OutOfFuel => ([], "", Stuck)
    end.
Proof.
  intros Hstate Hlen st'.
  assert (Hne : payload <> []) by (apply len_positive_nonempty; lia).
  unfold frame_bytes.
  change ([RESPONSE_CODE.MESSAGE; JS.len payload / 256; JS.len payload mod 256] ++ payload)
    with (RESPONSE_CODE.MESSAGE :: JS.len payload / 256 :: JS.len payload mod 256 :: payload).
  cbn [decode]. unfold processbyte at 1. rewrite Hstate.
  change (RESPONSE_CODE.MESSAGE =? RESPONSE_CODE.MESSAGE) with true. cbv iota.
  unfold processbyte at 1.
  cbn [state inbound inboundCount inboundResponse app].
  change (JS.len [JS.len payload / 256] =? 2) with false. cbv iota.
  unfold processbyte at 1.
  cbn [state inbound inboundCount inboundResponse app].
  change (JS.len [JS.len payload / 256; JS.len payload mod 256] =? 2) with true. cbv iota.
  change (JS.get [JS.len payload / 256; JS.len payload mod 256] 0)
    with (Some (JS.len payload / 256)).
  change (JS.get [JS.len payload / 256; JS.len payload mod 256] 1)
    with (Some (JS.len payload mod 256)).
  cbn [JS.int32_of]. rewrite be16 by lia.
  rewrite decode_data_completes by exact Hne.
  unfold processbyte.
  cbn [state inbound inboundCount inboundResponse].
  rewrite <- (app_removelast_last 0 Hne).
  rewrite Z.eqb_refl.
  change (RESPONSE_CODE.MESSAGE =? RESPONSE_CODE.MESSAGE) with true. cbv iota.
  fold st'.
  destruct (NDEF.Message_parse fuel payload); reflexivity.
Qed.

(** A well-formed frame read from the idle state gives its event and
    leaves the decoder idle. *)
Lemma decode_frame (fuel : nat) (st : session) (f : frame) (evt : event) :
  state st = COMMS_STATE.NULL ->
  frame_event fuel f evt ->
  exists st', decode fuel st (frame_bytes f) = ([evt], "", Finished st')
              /\ state st' = COMMS_STATE.NULL.
Proof.
  intros Hstate Hf.
  destruct Hf as [payload msg Hlen Hparse | code b1 b2 Hcode | b | b | b].
  - rewrite decode_message_frame by assumption. rewrite Hparse.
    eexists. split; reflexivity.
  - unfold frame_bytes. cbn [decode]. unfold processbyte at 1. rewrite Hstate.
    destruct Hcode as [-> | ->]; vm_compute; eexists; split; reflexivity.
  - unfold frame_bytes. cbn [decode]. unfold processbyte at 1. rewrite Hstate.
    vm_compute. eexists; split; reflexivity.
  - unfold frame_bytes. cbn [decode]. unfold processbyte at 1. rewrite Hstate.
    vm_compute. eexists; split; reflexivity.
  - unfold frame_bytes. cbn [decode]. unfold processbyte at 1. rewrite Hstate.
    vm_compute. eexists; split; reflexivity.
Qed.

Lemma processdata_decode (fuel : nat) (st st' : session) (bytes : list Z) (events : list event) :
  decode fuel st bytes = (events, "", Finished st') ->
  processdata fuel st bytes = Done st' events.
Proof.
  intros H. unfold processdata. rewrite processdata_loop_decode, H. simpl.
  rewrite app_nil_r. reflexivity.
Qed.

(** X23. From the idle state, a MESSAGE frame (payload of 1 to 65535
    bytes) on which [Message.parse] throws gives exactly one event, of
    type ERROR, with the text "Message read error: " and what was thrown;
    the decoder is idle afterwards; and a well-formed frame fed next, in a
    later call or in the same one, gives its own event as usual. *)
Theorem message_read_error_recovers
    (fuel : nat) (st : session) (payload : list Z) (ex : NDEF.exn)
    (following : frame) (evt : event) :
  state st = COMMS_STATE.NULL ->
  0 < JS.len payload < 65536 ->
  NDEF.Message_parse fuel payload = NDEF.Threw ex ->
  frame_event fuel following evt ->
  exists st1 st2,
    processdata fuel st (frame_bytes (MessageFrame payload))
    = Done st1 [mkEvent (Some COMMS_EVENT_TYPE.ERROR) None
                        (Some ("Message read error: " ++ NDEF.exn_text ex)%string)]
    /\ state st1 = COMMS_STATE.NULL
    /\ processdata fuel st1 (frame_bytes following) = Done st2 [evt]
    /\ state st2 = COMMS_STATE.NULL
    /\ processdata fuel st (frame_bytes (MessageFrame payload) ++ frame_bytes following)
       = Done st2 [mkEvent (Some COMMS_EVENT_TYPE.ERROR) None
                           (Some ("Message read error: " ++ NDEF.exn_text ex)%string);
                   evt].
Proof.
  intros Hstate Hlen Hparse Hnext.
  pose proof (decode_message_frame fuel st payload Hstate Hlen) as Hbad.
  cbv zeta in Hbad. rewrite Hparse in Hbad. unfold read_error in Hbad.
  set (st1 := mkSession COMMS_STATE.NULL payload (JS.len payload) RESPONSE_CODE.MESSAGE) in *.
  destruct (decode_frame fuel st1 following evt eq_refl Hnext) as (st2 & Hgood & Hstate2).
  exists st1, st2.
  split; [apply processdata_decode; exact Hbad|].
  split; [reflexivity|].
  split; [apply processdata_decode; exact Hgood|].
  split; [exact Hstate2|].
  apply processdata_decode. rewrite decode_app, Hbad, Hgood. reflexivity.
Qed.

Lemma message_read_error_recovers_witness :
  state initial = COMMS_STATE.NULL
  /\ 0 < JS.len [0x68; 0x69] < 65536
  /\ NDEF.Message_parse 4 [0x68; 0x69] = NDEF.Threw NDEF.InvalidRecordData
  /\ frame_event 4 (MessageFrame (NDEF.Message_getBytes example_message))
       (mkEvent (Some COMMS_EVENT_TYPE.NDEF_MESSAGE) (Some (Parsed example_message)) None)
  /\ exists st1 st2,
       processdata 4 initial (frame_bytes (MessageFrame [0x68; 0x69]))
       = Done st1 [mkEvent (Some COMMS_EVENT_TYPE.ERROR) None
                           (Some ("Message read error: "
                                  ++ NDEF.exn_text NDEF.InvalidRecordData)%string)]
       /\ state st1 = COMMS_STATE.NULL
       /\ processdata 4 st1 (frame_bytes (MessageFrame (NDEF.Message_getBytes example_message)))
          = Done st2 [mkEvent (Some COMMS_EVENT_TYPE.NDEF_MESSAGE)
                              (Some (Parsed example_message)) None]
       /\ state st2 = COMMS_STATE.NULL
       /\ processdata 4 initial
            (frame_bytes (MessageFrame [0x68; 0x69])
             ++ frame_bytes (MessageFrame (NDEF.Message_getBytes example_message)))
          = Done st2 [mkEvent (Some COMMS_EVENT_TYPE.ERROR) None
                              (Some ("Message read error: "
                                     ++ NDEF.exn_text NDEF.InvalidRecordData)%string);
                      mkEvent (Some COMMS_EVENT_TYPE.NDEF_MESSAGE)
                              (Some (Parsed example_message)) None].
Proof.
  assert (Hlen : 0 < JS.len [0x68; 0x69] < 65536) by (vm_compute; split; reflexivity).
  assert (Hevt : frame_event 4 (MessageFrame (NDEF.Message_getBytes example_message))
                   (mkEvent (Some COMMS_EVENT_TYPE.NDEF_MESSAGE)
                            (Some (Parsed example_message)) None)).
  { apply message_event; [vm_compute; split; reflexivity | vm_compute; reflexivity]. }
  split; [reflexivity|].
  split; [exact Hlen|].
  split; [vm_compute; reflexivity|].
  split; [exact Hevt|].
  apply (message_read_error_recovers 4 initial [0x68; 0x69] NDEF.InvalidRecordData
           (MessageFrame (NDEF.Message_getBytes example_message)) _
           eq_refl Hlen eq_refl Hevt).
Defined.

(** *** A frame on which the parser never returns *)

Lemma Message_parse_looping (fuel : nat) :
  NDEF.Message_parse fuel looping_buffer = NDEF.OutOfFuel.
Proof.
  unfold NDEF.Message_parse. generalize (@nil NDEF.Record).
  induction fuel as [|fuel IH]; intros recs; [reflexivity|].
  cbn [NDEF.parse_loop]. rewrite NDEFFacts.Record_parse_looping.
  change (0 <? JS.len looping_buffer) with true. cbv iota.
  apply IH.
Qed.

(** C7, at its failing input. The MESSAGE frame A5 00 07 01 01 FF FF FF F9
    54 carries a record that declares 0xFFFFFFF9 payload bytes and has
    none.  From the idle state the decoder gathers the seven bytes, sets
    its state to NULL and calls [Message.parse], which never returns: the
    call of [processdata] does not end, whatever the fuel; no event, and so
    no error event, is emitted; and the bytes that follow in the same
    call, a well-formed frame or any others, are never looked at. *)
Theorem malformed_message_frame_hangs (fuel : nat) (st : session) (following : list Z) :
  state st = COMMS_STATE.NULL ->
  frame_bytes (MessageFrame looping_buffer)
  = [0xA5; 0x00; 0x07; 0x01; 0x01; 0xFF; 0xFF; 0xFF; 0xF9; 0x54]
  /\ NDEF.Message_parse fuel looping_buffer = NDEF.OutOfFuel
  /\ processdata fuel st (frame_bytes (MessageFrame looping_buffer) ++ following) = Hung [].
Proof.
  intros Hstate.
  split; [reflexivity|].
  split; [apply Message_parse_looping|].
  assert (Hlen : 0 < JS.len looping_buffer < 65536) by (vm_compute; split; reflexivity).
  pose proof (decode_message_frame fuel st looping_buffer Hstate Hlen) as Hbad.
  cbv zeta in Hbad. rewrite Message_parse_looping in Hbad.
  unfold processdata. rewrite processdata_loop_decode, decode_app, Hbad. reflexivity.
Qed.

Lemma malformed_message_frame_hangs_witness :
  state initial = COMMS_STATE.NULL
  /\ frame_bytes (MessageFrame looping_buffer)
     = [0xA5; 0x00; 0x07; 0x01; 0x01; 0xFF; 0xFF; 0xFF; 0xF9; 0x54]
  /\ NDEF.Message_parse 9 looping_buffer = NDEF.OutOfFuel
  /\ processdata 9 initial
       (frame_bytes (MessageFrame looping_buffer) ++ frame_bytes (InfoFrame RESPONSE_CODE.ACK 1))
     = Hung [].
Proof.
  split; [reflexivity|].
  apply (malformed_message_frame_hangs 9 initial (frame_bytes (InfoFrame RESPONSE_CODE.ACK 1))).
  reflexivity.
Defined.

End CommsFacts.

(* ------------------------------------------------------------------ *)
(** ** More facts about ndef.js *)

Module NDEFMore.

Import NDEF Properties MoreProperties JSFacts NDEFFacts.

(** *** Headers as written *)

(** X1. The first byte of a record as [getBytes(first, last)] writes it
    decodes, by [Header.fromByte], to a header whose begin and end flags are
    [first] and [last], whose short-record flag says whether the payload has
    fewer than 256 bytes, whose chunked and id-length flags are clear, and
    whose TNF is the record's. *)
Theorem getBytes_header (r : Record) (first last : bool) :
  let h := Header_fromByte (JS.get (Record_getBytes r first last) 0) in
  truthy (messageBegin h) = first
  /\ truthy (messageEnd h) = last
  /\ truthy (chunked h) = false
  /\ truthy (shortRecord h) = (JS.len (Record_bytes r) <? 0x100)
  /\ truthy (IDLength h) = false
  /\ TNF h = Record_TNF r.
Proof.
  unfold Record_getBytes. cbn [truthy shortRecord].
  destruct (JS.len (Record_bytes r) <? 256); destruct r, first, last; repeat split.
Qed.

(** *** Records read back *)

Lemma chars_charCodes (s : string) : chars (JS.charCodes s) = s.
Proof.
  unfold chars, JS.charCodes. rewrite map_map.
  rewrite (map_ext _ (fun a => a)) by (intros a; apply fromCharCode_charCode).
  rewrite map_id. apply string_of_list_ascii_of_string.
Qed.

Lemma TextRecord_parse_reset (text : string) :
  TextRecord_parse (Record_bytes (TextRecord_of_string text)) = TextRecord_of_string text.
Proof.
  unfold TextRecord_of_string, TextRecord_reset, TextRecord_parse. cbn [Record_bytes].
  change ([JS.strlen "en"] ++ JS.charCodes "en" ++ JS.charCodes text)
    with (2 :: 101 :: 110 :: JS.charCodes text).
  destruct (Z.ltb_spec (JS.len (2 :: 101 :: 110 :: JS.charCodes text)) 3) as [Hlt|Hge].
  - revert Hlt. len_norm. pose proof (len_nonneg (JS.charCodes text)). lia.
  - cbn [skipn]. fold (chars (JS.charCodes text)). rewrite chars_charCodes. reflexivity.
Qed.

Lemma AndroidApplicationRecord_parse_reset (text : string) :
  AndroidApplicationRecord_parse (Record_bytes (AndroidApplicationRecord_reset text))
  = AndroidApplicationRecord_reset text.
Proof.
  unfold AndroidApplicationRecord_reset, AndroidApplicationRecord_parse. cbn [Record_bytes].
  fold (chars (JS.charCodes text)). rewrite chars_charCodes. reflexivity.
Qed.

Lemma find_protocol_range (uri : string) : 0 <= find_protocol uri <= 35.
Proof.
  destruct (find_protocol_first uri) as [(Hi & _) | (Hi & _)]; lia.
Qed.

Lemma prefix_app_substr (p s : string) :
  String.prefix p s = true <-> (p ++ JS.substr (String.length p) s)%string = s.
Proof.
  revert s. induction p as [|a p IH]; intros s.
  - simpl. destruct s; split; reflexivity.
  - destruct s as [|b s]; simpl.
    + split; discriminate.
    + destruct (ascii_dec a b) as [->|Hne].
      * rewrite IH. split; [intros ->; reflexivity | intros H; injection H; auto].
      * split; [discriminate | intros H; injection H; intros; contradiction].
Qed.

Lemma URIRecord_parse_reset_entry (uri : string) :
  URIRecord_parse (Record_bytes (URIRecord_reset uri))
  = URIRecord (protocol_text (find_protocol uri)
               ++ JS.substr (String.length (protocol_text (find_protocol uri))) uri)
              (Record_bytes (URIRecord_reset uri)).
Proof.
  pose proof (find_protocol_range uri) as Hrange.
  set (entry := protocol_text (find_protocol uri)).
  unfold URIRecord_reset. cbn [Record_bytes app]. fold entry.
  unfold URIRecord_parse.
  destruct (Z.ltb_spec (JS.len (find_protocol uri
                                 :: JS.charCodes (JS.substr (String.length entry) uri))) 1)
    as [Hlt | _].
  { revert Hlt. len_norm.
    pose proof (len_nonneg (JS.charCodes (JS.substr (String.length entry) uri))). lia. }
  change (JS.get (find_protocol uri :: _) 0) with (Some (find_protocol uri)).
  cbv iota. change (JS.len ProtocolList) with 36.
  destruct (Z.geb_spec (find_protocol uri) 36) as [Hge | _]; [lia|].
  cbn [skipn]. fold (chars (JS.charCodes (JS.substr (String.length entry) uri))).
  rewrite chars_charCodes. reflexivity.
Qed.

Lemma reparsed_built (r : Record) : built_by_constructor r -> reparsed r = r.
Proof.
  intros [[text ->] | [[uri [-> Hprefix]] | [text ->]]].
  - apply TextRecord_parse_reset.
  - cbn [reparsed URIRecord_reset]. fold (URIRecord_reset uri).
    change (URIRecord_parse (Record_bytes (URIRecord_reset uri)) = URIRecord_reset uri).
    rewrite URIRecord_parse_reset_entry.
    apply prefix_app_substr in Hprefix. rewrite Hprefix. reflexivity.
  - apply AndroidApplicationRecord_parse_reset.
Qed.

(** X2. A message made of records built by the constructors from strings
    (any text, any package name, any URI whose selected table entry is a
    prefix of the URI as written), with payloads below 2^31 bytes, comes
    back from [Message.parse] of its [getBytes] as the very same message:
    the same records with all their fields. *)
Theorem Message_parse_getBytes_exact (m : Message) (fuel : nat) :
  Forall built_by_constructor (records m) ->
  payloads_below (2 ^ 31) m ->
  (List.length (records m) < fuel)%nat ->
  Message_parse fuel (Message_getBytes m) = Returned m.
Proof.
  intros Hbuilt Hsmall Hfuel.
  unfold Message_parse, Message_getBytes.
  etransitivity;
    [apply (parse_loop_getBytes (JS.len (records m)) (records m) 0 [] [] fuel Hsmall Hfuel)|].
  destruct m as [recs]. cbn [records app] in *. do 2 f_equal.
  rewrite <- (map_id recs) at 2. apply map_ext_in. intros r Hin.
  apply reparsed_built. apply (proj1 (Forall_forall _ _) Hbuilt r Hin).
Qed.

Lemma example_message_built : Forall built_by_constructor (records example_message).
Proof.
  constructor; [|constructor; [|constructor]].
  - right. left. exists "http://www.example.com". split; reflexivity.
  - left. exists "hi". reflexivity.
Qed.

Lemma Message_parse_getBytes_exact_witness :
  Forall built_by_constructor (records example_message)
  /\ payloads_below (2 ^ 31) example_message
  /\ (List.length (records example_message) < 3)%nat
  /\ Message_parse 3 (Message_getBytes example_message) = Returned example_message.
Proof.
  split; [exact example_message_built|].
  split; [exact example_message_small|].
  split; [simpl; lia|].
  apply Message_parse_getBytes_exact;
    [exact example_message_built | exact example_message_small | simpl; lia].
Defined.

(** X3. A text record whose payload has fewer than three bytes does not
    come back: [Message.parse] of its bytes returns a text record with the
    payload [2, 'e', 'n'], the language "en" and an empty text. *)
Theorem Message_parse_short_text (text lang : string) (bytes : list Z) (fuel : nat) :
  JS.len bytes < 3 ->
  (1 < fuel)%nat ->
  Message_parse fuel (Message_getBytes (mkMessage [TextRecord text lang bytes]))
  = Returned (mkMessage [TextRecord "" "en" [2; JS.charCode "e"; JS.charCode "n"]]).
Proof.
  intros Hlen Hfuel.
  unfold Message_parse, Message_getBytes. cbn [records].
  etransitivity;
    [apply (parse_loop_getBytes _ [TextRecord text lang bytes] 0 [] [] fuel)|].
  - constructor; [cbn [Record_bytes]; lia | constructor].
  - simpl. lia.
  - cbn [List.map app reparsed]. unfold TextRecord_parse.
    destruct (Z.ltb_spec (JS.len bytes) 3) as [_ | Hge]; [reflexivity | lia].
Qed.

Lemma Message_parse_short_text_witness :
  JS.len [2; 0x65] < 3
  /\ (1 < 2)%nat
  /\ Message_parse 2 (Message_getBytes (mkMessage [TextRecord "" "e" [2; 0x65]]))
     = Returned (mkMessage [TextRecord "" "en" [2; JS.charCode "e"; JS.charCode "n"]]).
Proof.
  split; [reflexivity|]. split; [lia|].
  apply Message_parse_short_text; [reflexivity | lia].
Defined.

(** X4. [reset] followed by [parse] gives a text record back exactly when
    its language has two characters: [parse] takes the two bytes after the
    language length as the language, whatever that length says, and the
    remaining characters of a longer language become part of the text. *)
Theorem TextRecord_parse_reset_lang (lang text : string) :
  (TextRecord_parse (Record_bytes (TextRecord_reset lang text)) = TextRecord_reset lang text
   <-> String.length lang = 2%nat)
  /\ forall a b lang',
       TextRecord_parse (Record_bytes (TextRecord_reset (String a (String b lang')) text))
       = TextRecord (lang' ++ text) (String a (String b EmptyString))
                    (Record_bytes (TextRecord_reset (String a (String b lang')) text)).
Proof.
  assert (Hlong' : forall a b lang',
             TextRecord_parse (Record_bytes (TextRecord_reset (String a (String b lang')) text))
             = TextRecord (lang' ++ text) (String a (String b EmptyString))
                          (Record_bytes (TextRecord_reset (String a (String b lang')) text))).
  { intros a b lang'.
    unfold TextRecord_reset, TextRecord_parse. cbn [Record_bytes].
    change ([JS.strlen (String a (String b lang'))]
              ++ JS.charCodes (String a (String b lang')) ++ JS.charCodes text)
      with (JS.strlen (String a (String b lang'))
              :: JS.charCode a :: JS.charCode b
              :: (JS.charCodes lang' ++ JS.charCodes text)).
    set (l := JS.strlen (String a (String b lang'))).
    set (rest := JS.charCodes lang' ++ JS.charCodes text).
    destruct (Z.ltb_spec (JS.len (l :: JS.charCode a :: JS.charCode b :: rest)) 3)
      as [Hlt|Hge].
    - revert Hlt. len_norm. pose proof (len_nonneg rest). lia.
    - change (JS.get (l :: JS.charCode a :: JS.charCode b :: rest) 1)
        with (Some (JS.charCode a)).
      change (JS.get (l :: JS.charCode a :: JS.charCode b :: rest) 2)
        with (Some (JS.charCode b)).
      rewrite !fromCharCode_charCode. cbn [skipn].
      fold (chars rest). unfold rest, JS.charCodes.
      rewrite <- map_app. fold (JS.charCodes (lang' ++ text)).
      assert (Happ : (list_ascii_of_string lang' ++ list_ascii_of_string text)%list
                     = list_ascii_of_string (lang' ++ text)).
      { clear. induction lang' as [|c lang' IH]; [reflexivity|].
        simpl. rewrite IH. reflexivity. }
      rewrite Happ. fold (JS.charCodes (lang' ++ text)).
      rewrite chars_charCodes. reflexivity. }
  split; [|intros a b lang'; apply (Hlong' a b lang')]. split.
  - intros Heq.
    apply (f_equal (fun r => match r with
                             | TextRecord _ l _ => String.length l
                             | _ => O
                             end)) in Heq.
    unfold TextRecord_parse, TextRecord_reset in Heq.
    cbv beta iota zeta in Heq. cbn [String.length] in Heq. symmetry. exact Heq.
  - intros Hlen. destruct lang as [|a [|b [|c lang']]]; try discriminate Hlen.
    rewrite (Hlong' a b EmptyString). reflexivity.
Qed.

(** X5. Reading back the payload of [new URIRecord(uri)] gives the selected
    table entry followed by the rest of the URI; this is the URI that was
    given exactly when that entry is a prefix of the URI as written (it is
    selected on the lower-cased URI, and through the wildcard dots). *)
Theorem URIRecord_parse_reset (uri : string) :
  let entry := protocol_text (find_protocol uri) in
  URIRecord_parse (Record_bytes (URIRecord_reset uri))
  = URIRecord (entry ++ JS.substr (String.length entry) uri)
              (Record_bytes (URIRecord_reset uri))
  /\ (URIRecord_parse (Record_bytes (URIRecord_reset uri)) = URIRecord_reset uri
      <-> String.prefix entry uri = true).
Proof.
  intros entry. subst entry. split; [apply URIRecord_parse_reset_entry|].
  rewrite URIRecord_parse_reset_entry. unfold URIRecord_reset. cbn [Record_bytes].
  rewrite prefix_app_substr.
  split; [intros H; injection H; auto | intros ->; reflexivity].
Qed.

Lemma match_anchored_app (a b s : string) :
  JS.match_anchored (a ++ b) s = true -> JS.match_anchored a s = true.
Proof.
  revert s. induction a as [|x a IH]; intros s H; [reflexivity|].
  simpl in *. destruct s as [|c s]; [discriminate|].
  apply andb_true_iff in H. destruct H as [Hc Hrest].
  rewrite Hc. simpl. apply IH. exact Hrest.
Qed.

(** X6. [URIRecord.prototype.reset] never selects the entries 30 to 35
    ("urn:epc:id:" to "urn:nfc:"): each begins with "urn:", entry 19, which
    the scan meets first.  The index it writes is always in 0..29. *)
Theorem find_protocol_never_urn_subentry (uri : string) :
  0 <= find_protocol uri <= 29
  /\ exists rest, Record_bytes (URIRecord_reset uri) = find_protocol uri :: rest.
Proof.
  split; [|eexists; reflexivity].
  pose proof (find_protocol_range uri) as Hrange.
  destruct (Z_le_gt_dec (find_protocol uri) 29) as [Hle | Hgt]; [lia|].
  exfalso.
  destruct (find_protocol_first uri) as [(Hi & Hm & Hbefore) | (Hi & _)]; [|lia].
  specialize (Hbefore 19 ltac:(lia)).
  assert (Hurn : exists tail, protocol_text (find_protocol uri) = ("urn:" ++ tail)%string).
  { assert (Hcases : find_protocol uri = 30 \/ find_protocol uri = 31 \/ find_protocol uri = 32
                     \/ find_protocol uri = 33 \/ find_protocol uri = 34
                     \/ find_protocol uri = 35) by lia.
    destruct Hcases as [-> | [-> | [-> | [-> | [-> | ->]]]]]; eexists; reflexivity. }
  destruct Hurn as [tail Htail]. rewrite Htail in Hm.
  apply match_anchored_app in Hm.
  change (protocol_text 19) with "urn:" in Hbefore.
  rewrite Hm in Hbefore. discriminate.
Qed.

(** X7. [URIRecord.prototype.parse] takes a protocol index of 36 or more
    as index 0: the URI is the rest of the payload as text, with no prefix,
    and the payload, out-of-range index included, is kept. *)
Theorem URIRecord_parse_clamps (p : Z) (rest : list Z) :
  36 <= p ->
  URIRecord_parse (p :: rest) = URIRecord (chars rest) (p :: rest)
  /\ URIRecord_parse (0 :: rest) = URIRecord (chars rest) (0 :: rest).
Proof.
  intros Hp. unfold URIRecord_parse.
  destruct (Z.ltb_spec (JS.len (p :: rest)) 1) as [Hlt | _].
  { revert Hlt. len_norm. pose proof (len_nonneg rest). lia. }
  destruct (Z.ltb_spec (JS.len (0 :: rest)) 1) as [Hlt | _].
  { revert Hlt. len_norm. pose proof (len_nonneg rest). lia. }
  change (JS.get (p :: rest) 0) with (Some p).
  change (JS.get (0 :: rest) 0) with (Some 0). cbv iota.
  change (JS.len ProtocolList) with 36.
  destruct (Z.geb_spec p 36) as [_ | Hlt]; [|lia].
  split; reflexivity.
Qed.

Lemma URIRecord_parse_clamps_witness :
  36 <= 200
  /\ URIRecord_parse (200 :: JS.charCodes "abc")
     = URIRecord (chars (JS.charCodes "abc")) (200 :: JS.charCodes "abc")
  /\ URIRecord_parse (0 :: JS.charCodes "abc")
     = URIRecord (chars (JS.charCodes "abc")) (0 :: JS.charCodes "abc").
Proof.
  split; [lia|]. apply URIRecord_parse_clamps. lia.
Defined.

(** *** Sequences of records *)

Lemma getBytes_loop_encoded (n : Z) (rest : list Record) :
  forall i, getBytes_loop n i rest [] = encoded (flags n i rest).
Proof.
  induction rest as [|r rest IH]; intros i; [reflexivity|].
  cbn [getBytes_loop flags]. rewrite getBytes_loop_app, IH. reflexivity.
Qed.

Lemma flags_records (n : Z) (rest : list Record) :
  forall i, List.map (fun x : flagged => fst (fst x)) (flags n i rest) = rest.
Proof.
  induction rest as [|r rest IH]; intros i; [reflexivity|].
  cbn [flags List.map fst]. rewrite IH. reflexivity.
Qed.

Lemma Message_getBytes_encoded (m : Message) :
  Message_getBytes m = encoded (flags (JS.len (records m)) 0 (records m)).
Proof. apply getBytes_loop_encoded. Qed.

Lemma encoded_cons (x : flagged) (rs : list flagged) :
  encoded (x :: rs) = Record_getBytes (fst (fst x)) (snd (fst x)) (snd x) ++ encoded rs.
Proof. reflexivity. Qed.

Lemma encoded_app (a b : list flagged) : encoded (a ++ b) = encoded a ++ encoded b.
Proof. unfold encoded. rewrite map_app, concat_app. reflexivity. Qed.

Lemma parse_loop_encoded (rs : list flagged) :
  forall pre post recs fuel,
    Forall (fun x : flagged => JS.len (Record_bytes (fst (fst x))) < 2 ^ 31) rs ->
    parse_loop (List.length rs + fuel) (pre ++ encoded rs ++ post) (JS.len pre) recs
    = parse_loop fuel (pre ++ encoded rs ++ post) (JS.len pre + JS.len (encoded rs))
        (recs ++ List.map (fun x : flagged => reparsed (fst (fst x))) rs).
Proof.
  induction rs as [|[[r first] last] rs IH]; intros pre post recs fuel Hsmall.
  - cbn [List.length Nat.add List.map]. change (encoded []) with (@nil Z).
    change (JS.len []) with 0. rewrite Z.add_0_r, app_nil_r. reflexivity.
  - inversion Hsmall as [|x rs' Hr Hrs]; subst. cbn [fst snd] in Hr.
    rewrite encoded_cons. cbn [fst snd List.length Nat.add parse_loop List.map].
    set (enc := Record_getBytes r first last).
    assert (Hlt : (JS.len pre <? JS.len (pre ++ (enc ++ encoded rs) ++ post)) = true).
    { apply Z.ltb_lt. len_norm.
      pose proof (getBytes_nonempty r first last) as Henc. fold enc in Henc.
      pose proof (len_nonneg (encoded rs)). pose proof (len_nonneg post). lia. }
    rewrite Hlt. rewrite <- (app_assoc enc).
    subst enc. rewrite Record_parse_getBytes by exact Hr.
    set (enc := Record_getBytes r first last).
    replace (pre ++ enc ++ encoded rs ++ post) with ((pre ++ enc) ++ encoded rs ++ post)
      by (rewrite <- app_assoc; reflexivity).
    replace (JS.len pre + JS.len enc) with (JS.len (pre ++ enc)) by apply len_app.
    rewrite IH by exact Hrs.
    f_equal.
    + len_norm. lia.
    + rewrite <- app_assoc. reflexivity.
Qed.

Lemma Message_parse_encoded (rs : list flagged) (post : list Z) (fuel : nat) :
  Forall (fun x : flagged => JS.len (Record_bytes (fst (fst x))) < 2 ^ 31) rs ->
  Message_parse (List.length rs + fuel) (encoded rs ++ post)
  = parse_loop fuel (encoded rs ++ post) (JS.len (encoded rs))
      (List.map (fun x : flagged => reparsed (fst (fst x))) rs).
Proof.
  intros Hsmall. unfold Message_parse.
  apply (parse_loop_encoded rs [] post [] fuel Hsmall).
Qed.

Lemma small_flags (n i : Z) (rest : list Record) :
  Forall (fun r => JS.len (Record_bytes r) < 2 ^ 31) rest ->
  Forall (fun x : flagged => JS.len (Record_bytes (fst (fst x))) < 2 ^ 31) (flags n i rest).
Proof.
  revert i. induction rest as [|r rest IH]; intros i H; [constructor|].
  inversion H; subst. constructor; [assumption | apply IH; assumption].
Qed.

Lemma flags_length (n i : Z) (rest : list Record) :
  List.length (flags n i rest) = List.length rest.
Proof. revert i. induction rest as [|r rest IH]; intros i; simpl; [|rewrite IH]; reflexivity. Qed.

Lemma map_reparsed_flags (n i : Z) (rest : list Record) :
  List.map (fun x : flagged => reparsed (fst (fst x))) (flags n i rest)
  = List.map reparsed rest.
Proof.
  rewrite <- (flags_records n rest i) at 2. rewrite map_map. reflexivity.
Qed.

(** X8. One to three bytes left after the records of a message make
    [Message.parse] throw "Invalid NDEF record data": no message is
    returned, whatever was parsed before. *)
Theorem Message_parse_trailing_bytes (m : Message) (junk : list Z) (fuel : nat) :
  payloads_below (2 ^ 31) m ->
  0 < JS.len junk < 4 ->
  (List.length (records m) < fuel)%nat ->
  Message_parse fuel (Message_getBytes m ++ junk) = Threw InvalidRecordData.
Proof.
  intros Hsmall Hjunk Hfuel.
  rewrite Message_getBytes_encoded.
  set (rs := flags (JS.len (records m)) 0 (records m)).
  assert (Hlen : List.length rs = List.length (records m)) by apply flags_length.
  replace fuel with (List.length rs + S (fuel - S (List.length rs)))%nat by lia.
  rewrite Message_parse_encoded by (apply small_flags; exact Hsmall).
  cbn [parse_loop].
  destruct (Z.ltb_spec (JS.len (encoded rs)) (JS.len (encoded rs ++ junk))) as [_ | Hge].
  - rewrite Record_parse_direct_eq. unfold Record_parse_direct.
    destruct (Z.ltb_spec (JS.len (encoded rs ++ junk) - JS.len (encoded rs)) 4) as [_ | Hge];
      [reflexivity|].
    revert Hge. len_norm. lia.
  - revert Hge. len_norm. lia.
Qed.

Lemma Message_parse_trailing_bytes_witness :
  payloads_below (2 ^ 31) example_message
  /\ 0 < JS.len [0xD1] < 4
  /\ (List.length (records example_message) < 3)%nat
  /\ Message_parse 3 (Message_getBytes example_message ++ [0xD1]) = Threw InvalidRecordData.
Proof.
  split; [exact example_message_small|].
  split; [split; reflexivity|]. split; [simpl; lia|].
  apply Message_parse_trailing_bytes;
    [exact example_message_small | split; reflexivity | simpl; lia].
Defined.

(** X9. [Message.parse] does not look at the begin and end flags: the
    bytes of one message followed by the bytes of another parse as a single
    message with the records of both, in order. *)
Theorem Message_parse_concatenation (m1 m2 : Message) (fuel : nat) :
  payloads_below (2 ^ 31) m1 ->
  payloads_below (2 ^ 31) m2 ->
  (List.length (records m1) + List.length (records m2) < fuel)%nat ->
  Message_parse fuel (Message_getBytes m1 ++ Message_getBytes m2)
  = Returned (mkMessage (List.map reparsed (records m1 ++ records m2))).
Proof.
  intros H1 H2 Hfuel.
  rewrite !Message_getBytes_encoded, <- encoded_app.
  set (rs := flags _ 0 (records m1) ++ flags _ 0 (records m2)).
  assert (Hlen : List.length rs = (List.length (records m1) + List.length (records m2))%nat)
    by (subst rs; rewrite length_app, !flags_length; reflexivity).
  replace fuel with (List.length rs + S (fuel - S (List.length rs)))%nat by lia.
  rewrite <- (app_nil_r (encoded rs)).
  rewrite Message_parse_encoded.
  - cbn [parse_loop]. rewrite app_nil_r, Z.ltb_irrefl.
    subst rs. rewrite map_app, !map_reparsed_flags, <- map_app. reflexivity.
  - subst rs. apply Forall_app. split; apply small_flags; assumption.
Qed.

Lemma Message_parse_concatenation_witness :
  payloads_below (2 ^ 31) example_message
  /\ payloads_below (2 ^ 31) example_message
  /\ (List.length (records example_message) + List.length (records example_message) < 5)%nat
  /\ Message_parse 5 (Message_getBytes example_message ++ Message_getBytes example_message)
     = Returned (mkMessage (List.map reparsed (records example_message ++ records example_message))).
Proof.
  split; [exact example_message_small|]. split; [exact example_message_small|].
  split; [simpl; lia|].
  apply Message_parse_concatenation;
    [exact example_message_small | exact example_message_small | simpl; lia].
Defined.

(** *** Termination *)

Lemma get_byte (data : list Z) (i b : Z) :
  byte_values data -> JS.get data i = Some b -> 0 <= b < 256.
Proof.
  unfold byte_values, JS.get. intros Hall.
  destruct (i <? 0); [discriminate|]. intros Hget.
  apply nth_error_In in Hget. rewrite Forall_forall in Hall. apply Hall. exact Hget.
Qed.

Lemma int32_of_byte (data : list Z) (i : Z) :
  byte_values data -> 0 <= JS.int32_of (JS.get data i) < 256
                      /\ (forall b, JS.get data i = Some b -> JS.int32_of (JS.get data i) = b).
Proof.
  intros Hall. destruct (JS.get data i) as [b|] eqn:Hget; cbn [JS.int32_of].
  - pose proof (get_byte data i b Hall Hget). rewrite to_int32_small by lia.
    split; [lia|]. intros b' H'. congruence.
  - split; [lia|]. discriminate.
Qed.

(** The length that four bytes, the first below 0x80, decode to. *)
Lemma be32_nonneg (l0 l1 l2 l3 : Z) :
  0 <= l0 < 128 -> 0 <= l1 < 256 -> 0 <= l2 < 256 -> 0 <= l3 < 256 ->
  JS.or (JS.or (JS.or (JS.shl l0 24) (JS.shl l1 16)) (JS.shl l2 8)) l3
  = l0 * 2 ^ 24 + l1 * 2 ^ 16 + l2 * 2 ^ 8 + l3.
Proof.
  intros H0 H1 H2 H3.
  unfold JS.or, JS.shl.
  repeat rewrite (to_int32_small l0) by lia.
  repeat rewrite (to_int32_small l1) by lia.
  repeat rewrite (to_int32_small l2) by lia.
  repeat rewrite (to_int32_small l3) by lia.
  rewrite !Z.shiftl_mul_pow2 by lia.
  repeat rewrite (to_int32_small (l0 * 2 ^ 24)) by lia.
  repeat rewrite (to_int32_small (l1 * 2 ^ 16)) by lia.
  repeat rewrite (to_int32_small (l2 * 2 ^ 8)) by lia.
  rewrite (lor_high_low l0 (l1 * 2 ^ 16) 24) by lia.
  repeat rewrite (to_int32_small (l0 * 2 ^ 24 + l1 * 2 ^ 16)) by lia.
  replace (l0 * 2 ^ 24 + l1 * 2 ^ 16) with ((l0 * 2 ^ 8 + l1) * 2 ^ 16) by lia.
  rewrite (lor_high_low _ (l2 * 2 ^ 8) 16) by lia.
  repeat rewrite (to_int32_small ((l0 * 2 ^ 8 + l1) * 2 ^ 16 + l2 * 2 ^ 8)) by lia.
  replace ((l0 * 2 ^ 8 + l1) * 2 ^ 16 + l2 * 2 ^ 8)
    with (((l0 * 2 ^ 8 + l1) * 2 ^ 8 + l2) * 2 ^ 8) by lia.
  rewrite (lor_high_low _ l3 8) by lia.
  lia.
Qed.

Lemma chars_at_length (data : list Z) (count : nat) :
  forall p, String.length (chars_at data p count) = count.
Proof.
  induction count as [|count IH]; intros p; simpl; [|rewrite IH]; reflexivity.
Qed.

Lemma find_type_length (recordType : string) (ctor : list Z -> Record) :
  find_type typeKeys recordType = Some ctor -> (1 <= String.length recordType)%nat.
Proof.
  unfold typeKeys, find_type.
  destruct (String.eqb_spec recordType "T") as [->|_]; [simpl; lia|].
  destruct (String.eqb_spec recordType "U") as [->|_]; [simpl; lia|].
  destruct (String.eqb_spec recordType "android.com:pkg") as [->|_]; [simpl; lia|].
  discriminate.
Qed.

Lemma Record_parse_advances (data : list Z) (offset consumed : Z) (record : Record) :
  byte_values data ->
  0 <= offset ->
  Record_parse data offset = Ok (consumed, record) ->
  (4 <= consumed /\ offset + consumed <= JS.len data)
  \/ negative_length_at data offset.
Proof.
  intros Hall Hoff. rewrite Record_parse_direct_eq. unfold Record_parse_direct.
  destruct (Z.ltb_spec (JS.len data - offset) 4) as [|Hguard]; [discriminate|].
  destruct (get_defined data (offset + 1) ltac:(lia)) as [t Ht].
  pose proof (get_byte data _ t Hall Ht) as Htb.
  rewrite Ht. cbn [rounds].
  unfold negative_length_at.
  destruct (truthy (shortRecord (Header_of_byte (JS.get data offset)))) eqn:Hshort.
  - destruct (get_defined data (offset + 2) ltac:(lia)) as [n Hn].
    pose proof (get_byte data _ n Hall Hn) as Hnb.
    rewrite Hn.
    destruct (Z.ltb_spec (JS.len data - (offset + 3 + Z.of_nat (Z.to_nat t))) n);
      [discriminate|].
    destruct (find_type typeKeys _) as [ctor|] eqn:Hfind; [|discriminate].
    apply find_type_length in Hfind. rewrite chars_at_length in Hfind.
    intros Hok. injection Hok as <- _. left. lia.
  - destruct (JS.get data (offset + 2)) as [l0|] eqn:H0.
    + pose proof (get_byte data _ l0 Hall H0) as H0b.
      destruct (Z_lt_ge_dec l0 128) as [Hlow | Hhigh].
      * destruct (int32_of_byte data (offset + 3) Hall) as [H1b _].
        destruct (int32_of_byte data (offset + 4) Hall) as [H2b _].
        destruct (int32_of_byte data (offset + 5) Hall) as [H3b _].
        cbn [JS.int32_of]. rewrite (to_int32_small l0) by lia.
        rewrite be32_nonneg by lia.
        set (recordLen := l0 * 2 ^ 24 + _ + _ + _).
        assert (0 <= recordLen) by (subst recordLen; lia).
        destruct (Z.ltb_spec (JS.len data - (offset + 6 + Z.of_nat (Z.to_nat t))) recordLen);
          [discriminate|].
        destruct (find_type typeKeys _) as [ctor|] eqn:Hfind; [|discriminate].
        apply find_type_length in Hfind. rewrite chars_at_length in Hfind.
        intros Hok. injection Hok as <- _. left. lia.
      * intros _. right. split; [reflexivity|]. exists l0. split; [reflexivity | lia].
    + destruct (int32_of_byte data (offset + 3) Hall) as [H1b _].
      destruct (int32_of_byte data (offset + 4) Hall) as [H2b _].
      destruct (int32_of_byte data (offset + 5) Hall) as [H3b _].
      cbn [JS.int32_of].
      rewrite be32_nonneg by lia.
      set (recordLen := 0 * 2 ^ 24 + _ + _ + _).
      assert (0 <= recordLen) by (subst recordLen; lia).
      destruct (Z.ltb_spec (JS.len data - (offset + 6 + Z.of_nat (Z.to_nat t))) recordLen);
        [discriminate|].
      destruct (find_type typeKeys _) as [ctor|] eqn:Hfind; [|discriminate].
      apply find_type_length in Hfind. rewrite chars_at_length in Hfind.
      intros Hok. injection Hok as <- _. left. lia.
Qed.

Lemma parse_loop_terminates (data : list Z) :
  byte_values data ->
  (forall i, 0 <= i -> ~ negative_length_at data i) ->
  forall fuel offset recs,
    0 <= offset <= JS.len data ->
    JS.len data - offset < Z.of_nat fuel ->
    parse_loop fuel data offset recs <> OutOfFuel.
Proof.
  intros Hall Hnone.
  induction fuel as [|fuel IH]; intros offset recs Hoff Hfuel; [simpl in Hfuel; lia|].
  cbn [parse_loop].
  destruct (Z.ltb_spec offset (JS.len data)) as [Hlt | Hge]; [|discriminate].
  destruct (Record_parse data offset) as [[consumed record] | e] eqn:Hparse; [|discriminate].
  destruct (Record_parse_advances data offset consumed record Hall ltac:(lia) Hparse)
    as [[Hfour Hin] | Hneg].
  - apply IH; lia.
  - exfalso. apply (Hnone offset); [lia | exact Hneg].
Qed.

(** X10. On a buffer of byte values in which no index holds a long-form
    header followed, two bytes on, by a length byte of 0x80 or more,
    [Message.parse] comes to an end, returning or throwing, within one
    round for each byte and one more: every record it parses takes at least
    four bytes and ends inside the buffer. *)
Theorem Message_parse_terminates (data : list Z) (fuel : nat) :
  byte_values data ->
  (forall i, 0 <= i -> ~ negative_length_at data i) ->
  (List.length data < fuel)%nat ->
  Message_parse fuel data <> OutOfFuel.
Proof.
  intros Hall Hnone Hfuel. unfold Message_parse.
  apply parse_loop_terminates; try assumption.
  - pose proof (len_nonneg data). lia.
  - unfold JS.len. lia.
Qed.

Lemma Message_parse_terminates_witness :
  byte_values [0x11; 0x01; 0x00; 0x54]
  /\ (forall i, 0 <= i -> ~ negative_length_at [0x11; 0x01; 0x00; 0x54] i)
  /\ (List.length [0x11; 0x01; 0x00; 0x54] < 5)%nat
  /\ Message_parse 5 [0x11; 0x01; 0x00; 0x54] <> OutOfFuel.
Proof.
  assert (Hbytes : byte_values [0x11; 0x01; 0x00; 0x54]) by (repeat constructor; lia).
  assert (Hnone : forall i, 0 <= i -> ~ negative_length_at [0x11; 0x01; 0x00; 0x54] i).
  { intros i Hi (_ & b & Hget & Hb). unfold JS.get in Hget.
    destruct (i + 2 <? 0); [discriminate|].
    apply nth_error_In in Hget. simpl in Hget.
    destruct Hget as [<- | [<- | [<- | [<- | []]]]]; lia. }
  split; [exact Hbytes|]. split; [exact Hnone|]. split; [simpl; lia|].
  apply Message_parse_terminates; [exact Hbytes | exact Hnone | simpl; lia].
Defined.

End NDEFMore.

(* ------------------------------------------------------------------ *)
(** ** Facts about the JSON representation *)

Module JSONFacts.

Import NDEF Properties MoreProperties JSFacts NDEFJSON.

Lemma Record_fromJSON_getJSON (inherited : string -> inherited_property) (r : Record) :
  Record_fromJSON inherited (Record_getJSON r) = Built (OfRecord (rebuilt r)).
Proof. destruct r; reflexivity. Qed.

Lemma getJSON_rebuilt (r : Record) : Record_getJSON (rebuilt r) = Record_getJSON r.
Proof. destruct r; reflexivity. Qed.

Lemma fromJSON_loop_getJSON (inherited : string -> inherited_property) (rest : list Record) :
  forall recs,
    fromJSON_loop inherited (List.map Record_getJSON rest) recs
    = Built (recs ++ List.map OfRecord (List.map rebuilt rest)).
Proof.
  induction rest as [|r rest IH]; intros recs; cbn [List.map fromJSON_loop].
  - rewrite app_nil_r. reflexivity.
  - rewrite Record_fromJSON_getJSON, IH, <- app_assoc. reflexivity.
Qed.

(** X11. [Message.fromJSON] of the list that [getJSON] writes for a
    message always succeeds; the message it builds holds records only, has
    the same record types in the same order and writes the same JSON list
    again; and it is the message itself when every record is what its
    constructor builds from its text, URI or package name. *)
Theorem Message_fromJSON_getJSON (inherited : string -> inherited_property) (m : Message) :
  exists m',
    Message_fromJSON inherited (Message_getJSON m) = Built (List.map OfRecord (records m'))
    /\ Message_getJSON m' = Message_getJSON m
    /\ List.map Record_type (records m') = List.map Record_type (records m)
    /\ (Forall (fun r => rebuilt r = r) (records m) -> m' = m).
Proof.
  exists (mkMessage (List.map rebuilt (records m))).
  split; [apply (fromJSON_loop_getJSON inherited (records m) [])|].
  unfold Message_getJSON. cbn [records]. rewrite !map_map.
  split; [apply map_ext; apply getJSON_rebuilt|].
  split; [apply map_ext; intros r; destruct r; reflexivity|].
  intros Hall. destruct m as [recs]. cbn [records] in *. f_equal.
  rewrite <- (map_id recs) at 2. apply map_ext_in. intros r Hin.
  apply (proj1 (Forall_forall _ _) Hall r Hin).
Qed.

Lemma fromJSON_loop_built (inherited : string -> inherited_property) (pre : list entry) :
  Forall (fun obj => own_key typeKeys (type obj) <> None
                     \/ inherited (type obj) = InheritedConstructor) pre ->
  forall post recs,
  exists recs',
    fromJSON_loop inherited (pre ++ post) recs = fromJSON_loop inherited post recs'.
Proof.
  induction 1 as [|obj pre Hobj Hpre IH]; intros post recs.
  - exists recs. reflexivity.
  - cbn [app fromJSON_loop]. unfold Record_fromJSON.
    destruct (own_key typeKeys (type obj)) as [ctor|]; [apply IH|].
    destruct Hobj as [Hown | Hinh]; [contradiction|].
    rewrite Hinh. apply IH.
Qed.

(** X12. When each entry before it has a registered type, or a type
    through which [new] builds an object (an inherited constructor),
    [Message.fromJSON] throws "Type not found" for the first entry whose
    type is neither registered nor a name inherited from
    [Object.prototype], whatever follows it: no message is built. *)
Theorem Message_fromJSON_type_not_found
    (inherited : string -> inherited_property) (pre post : list entry) (obj : entry) :
  Forall (fun obj => own_key typeKeys (type obj) <> None
                     \/ inherited (type obj) = InheritedConstructor) pre ->
  own_key typeKeys (type obj) = None ->
  inherited (type obj) = NotInherited ->
  Message_fromJSON inherited (pre ++ obj :: post) = TypeNotFound (type obj).
Proof.
  intros Hpre Hobj Hinh. unfold Message_fromJSON.
  destruct (fromJSON_loop_built inherited pre Hpre (obj :: post) []) as [recs ->].
  cbn [fromJSON_loop]. unfold Record_fromJSON. rewrite Hobj, Hinh. reflexivity.
Qed.

Lemma Message_fromJSON_type_not_found_witness :
  Forall (fun obj => own_key typeKeys (type obj) <> None
                     \/ constructor_only (type obj) = InheritedConstructor)
         [mkEntry "T" (Some "hello"); mkEntry "constructor" (Some "a")]
  /\ own_key typeKeys (type (mkEntry "X" (Some "a"))) = None
  /\ constructor_only (type (mkEntry "X" (Some "a"))) = NotInherited
  /\ Message_fromJSON constructor_only
       ([mkEntry "T" (Some "hello"); mkEntry "constructor" (Some "a")]
        ++ mkEntry "X" (Some "a") :: [mkEntry "U" (Some "tel:1")])
     = TypeNotFound (type (mkEntry "X" (Some "a"))).
Proof.
  assert (Hpre : Forall (fun obj => own_key typeKeys (type obj) <> None
                                    \/ constructor_only (type obj) = InheritedConstructor)
                        [mkEntry "T" (Some "hello"); mkEntry "constructor" (Some "a")]).
  { constructor; [left; discriminate|].
    constructor; [right; reflexivity | constructor]. }
  split; [exact Hpre|]. split; [reflexivity|]. split; [reflexivity|].
  apply Message_fromJSON_type_not_found; [exact Hpre | reflexivity | reflexivity].
Defined.

End JSONFacts.

(* ------------------------------------------------------------------ *)
(** ** More facts about comms.js *)

Module CommsMore.

Import NDEF Comms Properties MoreProperties JSFacts NDEFFacts NDEFMore CommsFacts.

(** *** Streams of frames *)

Lemma decode_frames (fuel : nat) (frames : list frame) (events : list event) :
  Forall2 (frame_event fuel) frames events ->
  forall st, state st = COMMS_STATE.NULL ->
  exists st', decode fuel st (List.concat (List.map frame_bytes frames))
              = (events, "", Finished st')
              /\ state st' = COMMS_STATE.NULL.
Proof.
  induction 1 as [|f evt frames events Hf Hrest IH]; intros st Hstate.
  - exists st. split; [reflexivity | exact Hstate].
  - destruct (decode_frame fuel st f evt Hstate Hf) as (st1 & H1 & Hs1).
    destruct (IH st1 Hs1) as (st2 & H2 & Hs2).
    exists st2. split; [|exact Hs2].
    cbn [List.map List.concat]. rewrite decode_app, H1, H2. reflexivity.
Qed.

(** X13. From the idle state, the bytes of any sequence of well-formed
    frames, fed in one call, give exactly the events of those frames, in
    order, and leave the decoder idle. *)
Theorem processdata_frames (fuel : nat) (st : session)
    (frames : list frame) (events : list event) :
  state st = COMMS_STATE.NULL ->
  Forall2 (frame_event fuel) frames events ->
  exists st', processdata fuel st (List.concat (List.map frame_bytes frames)) = Done st' events
              /\ state st' = COMMS_STATE.NULL.
Proof.
  intros Hstate Hframes.
  destruct (decode_frames fuel frames events Hframes st Hstate) as (st' & Hdec & Hst').
  exists st'. split; [|exact Hst'].
  unfold processdata. rewrite processdata_loop_decode, Hdec. simpl.
  rewrite app_nil_r. reflexivity.
Qed.

Lemma processdata_frames_witness :
  state initial = COMMS_STATE.NULL
  /\ Forall2 (frame_event 0)
       [InfoFrame RESPONSE_CODE.ACK 7; DataFrame RESPONSE_CODE.VERSION 1 2]
       [mkEvent (Some COMMS_EVENT_TYPE.ACK) (Some (Byte 7)) None;
        mkEvent (Some COMMS_EVENT_TYPE.DATA) (Some (Bytes [1; 2])) None]
  /\ exists st',
       processdata 0 initial
         (List.concat (List.map frame_bytes
            [InfoFrame RESPONSE_CODE.ACK 7; DataFrame RESPONSE_CODE.VERSION 1 2]))
       = Done st' [mkEvent (Some COMMS_EVENT_TYPE.ACK) (Some (Byte 7)) None;
                   mkEvent (Some COMMS_EVENT_TYPE.DATA) (Some (Bytes [1; 2])) None]
       /\ state st' = COMMS_STATE.NULL.
Proof.
  assert (Hframes : Forall2 (frame_event 0)
       [InfoFrame RESPONSE_CODE.ACK 7; DataFrame RESPONSE_CODE.VERSION 1 2]
       [mkEvent (Some COMMS_EVENT_TYPE.ACK) (Some (Byte 7)) None;
        mkEvent (Some COMMS_EVENT_TYPE.DATA) (Some (Bytes [1; 2])) None]).
  { constructor; [apply ack_event|].
    constructor; [apply data_event; right; reflexivity | constructor]. }
  split; [reflexivity|]. split; [exact Hframes|].
  apply processdata_frames; [reflexivity | exact Hframes].
Defined.

Lemma payload_in_encoded (rs : list flagged) (x : flagged) :
  In x rs -> JS.len (Record_bytes (fst (fst x))) <= JS.len (encoded rs).
Proof.
  induction rs as [|y rs IH]; intros Hin; [contradiction|].
  rewrite encoded_cons. len_norm. pose proof (len_nonneg (encoded rs)).
  destruct Hin as [-> | Hin].
  - unfold Record_getBytes. cbn zeta. len_norm.
    pose proof (len_nonneg (JS.charCodes (Record_type (fst (fst x))))).
    match goal with |- context [if ?c then _ else _] => destruct c end; len_norm; lia.
  - specialize (IH Hin).
    pose proof (len_nonneg (Record_getBytes (fst (fst y)) (snd (fst y)) (snd y))). lia.
Qed.

Lemma payloads_below_getBytes (m : Message) :
  JS.len (Message_getBytes m) < 2 ^ 31 -> payloads_below (2 ^ 31) m.
Proof.
  intros Hlen. unfold payloads_below. apply Forall_forall. intros r Hin.
  rewrite Message_getBytes_encoded in Hlen.
  set (rs := flags (JS.len (records m)) 0 (records m)) in *.
  assert (Hx : exists x, In x rs /\ fst (fst x) = r).
  { rewrite <- (flags_records (JS.len (records m)) (records m) 0) in Hin.
    apply in_map_iff in Hin. destruct Hin as (x & Hx & Hin). exists x. split; assumption. }
  destruct Hx as (x & Hin' & <-).
  pose proof (payload_in_encoded rs x Hin'). lia.
Qed.

(** X14. From the idle state, a MESSAGE frame that carries the bytes of a
    well-formed message with at least one record and fewer than 65536 bytes
    gives one NDEF_MESSAGE event whose message has the records of the one
    that was written (same order, type names and payloads), and leaves the
    decoder idle. *)
Theorem processdata_message_frame (fuel : nat) (st : session) (m : Message) :
  state st = COMMS_STATE.NULL ->
  well_formed m ->
  records m <> [] ->
  JS.len (Message_getBytes m) < 65536 ->
  (List.length (records m) < fuel)%nat ->
  exists st' m',
    processdata fuel st (frame_bytes (MessageFrame (Message_getBytes m)))
    = Done st' [mkEvent (Some COMMS_EVENT_TYPE.NDEF_MESSAGE) (Some (Parsed m')) None]
    /\ same_records m m'
    /\ state st' = COMMS_STATE.NULL.
Proof.
  intros Hstate Hwf Hne Hlen Hfuel.
  assert (Hsmall : payloads_below (2 ^ 31) m) by (apply payloads_below_getBytes; lia).
  assert (Hparse : Message_parse fuel (Message_getBytes m)
                   = Returned (mkMessage (List.map reparsed (records m)))).
  { unfold Message_parse, Message_getBytes.
    apply (parse_loop_getBytes (JS.len (records m)) (records m) 0 [] [] fuel Hsmall Hfuel). }
  assert (Hpos : 0 < JS.len (Message_getBytes m)).
  { unfold Message_getBytes. destruct (records m) as [|r rest]; [contradiction|].
    cbn [getBytes_loop]. rewrite getBytes_loop_app. rewrite len_app.
    match goal with
    | |- context [JS.len ([] ++ Record_getBytes ?r ?f ?l)] =>
        pose proof (getBytes_nonempty r f l); change ([] ++ Record_getBytes r f l)
          with (Record_getBytes r f l)
    end.
    match goal with
    | |- context [JS.len (getBytes_loop ?n ?i ?rs [])] =>
        pose proof (len_nonneg (getBytes_loop n i rs []))
    end.
    lia. }
  pose proof (decode_message_frame fuel st (Message_getBytes m) Hstate (conj Hpos Hlen)) as Hdec.
  cbv zeta in Hdec. rewrite Hparse in Hdec.
  eexists. exists (mkMessage (List.map reparsed (records m))).
  split; [apply processdata_decode; exact Hdec|].
  split; [|reflexivity].
  unfold same_records. cbn [records]. rewrite !map_map.
  split; apply map_ext_in; intros r Hin; apply reparsed_same;
    apply (proj1 (Forall_forall _ _) Hwf r Hin).
Qed.

Lemma example_message_nonempty : records example_message <> [].
Proof. discriminate. Qed.

Lemma example_message_length : JS.len (Message_getBytes example_message) < 65536.
Proof. reflexivity. Qed.

Lemma processdata_message_frame_witness :
  state initial = COMMS_STATE.NULL
  /\ well_formed example_message
  /\ records example_message <> []
  /\ JS.len (Message_getBytes example_message) < 65536
  /\ (List.length (records example_message) < 3)%nat
  /\ exists st' m',
       processdata 3 initial (frame_bytes (MessageFrame (Message_getBytes example_message)))
       = Done st' [mkEvent (Some COMMS_EVENT_TYPE.NDEF_MESSAGE) (Some (Parsed m')) None]
       /\ same_records example_message m'
       /\ state st' = COMMS_STATE.NULL.
Proof.
  split; [reflexivity|]. split; [exact example_message_well_formed|].
  split; [exact example_message_nonempty|]. split; [exact example_message_length|].
  split; [simpl; lia|].
  apply processdata_message_frame;
    [reflexivity | exact example_message_well_formed | exact example_message_nonempty
     | exact example_message_length | simpl; lia].
Defined.

(** *** A frame that never ends *)

Lemma decode_overrun (fuel : nat) (bytes : list Z) :
  forall acc count response,
    count <= JS.len acc ->
    decode fuel (mkSession COMMS_STATE.DATA acc count response) bytes
    = ([], "", Finished (mkSession COMMS_STATE.DATA (acc ++ bytes) count response)).
Proof.
  induction bytes as [|b bytes IH]; intros acc count response Hcount.
  - rewrite app_nil_r. reflexivity.
  - cbn [decode processbyte state inbound inboundCount inboundResponse].
    destruct (Z.eqb_spec (JS.len (acc ++ [b])) count) as [Heq | _].
    + revert Heq. len_norm. lia.
    + rewrite IH by (len_norm; lia). rewrite <- app_assoc. reflexivity.
Qed.

Lemma feed_overrun (fuel : nat) (chunks : list (list Z)) :
  forall acc count response events,
    count <= JS.len acc ->
    feed fuel (mkSession COMMS_STATE.DATA acc count response) chunks events
    = Done (mkSession COMMS_STATE.DATA (acc ++ List.concat chunks) count response) events.
Proof.
  induction chunks as [|chunk chunks IH]; intros acc count response events Hcount.
  - cbn [feed List.concat]. rewrite app_nil_r. reflexivity.
  - cbn [feed List.concat]. unfold processdata.
    rewrite processdata_loop_decode, decode_overrun by exact Hcount.
    cbn [flushed information String.length Nat.eqb app].
    rewrite IH by (len_norm; pose proof (len_nonneg chunk); lia).
    rewrite app_nil_r, <- app_assoc. reflexivity.
Qed.

(** X15. A MESSAGE frame that declares the length 0 never ends: from the
    idle state, after its three header bytes every byte of that call and of
    all later calls is put into the buffer, no event is emitted, and the
    decoder stays in the DATA state. *)
Theorem processdata_zero_length_message
    (fuel : nat) (st : session) (bytes : list Z) (chunks : list (list Z)) :
  state st = COMMS_STATE.NULL ->
  feed fuel st (([RESPONSE_CODE.MESSAGE; 0; 0] ++ bytes) :: chunks) []
  = Done (mkSession COMMS_STATE.DATA (bytes ++ List.concat chunks) 0 RESPONSE_CODE.MESSAGE) [].
Proof.
  intros Hstate. cbn [feed]. unfold processdata. rewrite processdata_loop_decode.
  cbn [app decode]. unfold processbyte at 1. rewrite Hstate.
  change (RESPONSE_CODE.MESSAGE =? RESPONSE_CODE.MESSAGE) with true. cbv iota.
  unfold processbyte at 1. cbn [state inbound inboundCount inboundResponse app].
  change (JS.len [0] =? 2) with false. cbv iota.
  unfold processbyte at 1. cbn [state inbound inboundCount inboundResponse app].
  change (JS.len [0; 0] =? 2) with true. cbv iota.
  change (JS.or (JS.shl (JS.int32_of (JS.get [0; 0] 0)) 8) (JS.int32_of (JS.get [0; 0] 1)))
    with 0.
  rewrite decode_overrun by (change (JS.len []) with 0; lia).
  cbn [flushed information String.length Nat.eqb app].
  apply feed_overrun. pose proof (len_nonneg bytes). lia.
Qed.

Lemma processdata_zero_length_message_witness :
  state initial = COMMS_STATE.NULL
  /\ feed 0 initial (([RESPONSE_CODE.MESSAGE; 0; 0] ++ [RESPONSE_CODE.ACK; 7])
                     :: [[RESPONSE_CODE.ACK; 7]]) []
     = Done (mkSession COMMS_STATE.DATA
               ([RESPONSE_CODE.ACK; 7] ++ List.concat [[RESPONSE_CODE.ACK; 7]])
               0 RESPONSE_CODE.MESSAGE) [].
Proof.
  split; [reflexivity|]. apply processdata_zero_length_message. reflexivity.
Defined.

(** *** Stray bytes *)




(** *** The shape of events *)

Lemma settled_initial : settled initial.
Proof. exact I. Qed.

Lemma processbyte_settled (fuel : nat) (st : session) (b : Z) :
  settled st ->
  match processbyte fuel st b with
  | Next st' emitted _ => settled st' /\ Forall event_shaped emitted
  | Unexpected _ => False
  | Stalled => True
  end.
Proof.
  unfold processbyte. intros H.
  destruct (state st) eqn:Hstate.
  - (* NULL *)
    destruct (b =? RESPONSE_CODE.MESSAGE); [split; [reflexivity | constructor]|].
    destruct ((b =? RESPONSE_CODE.DATA) || (b =? RESPONSE_CODE.VERSION)).
    { split; [|constructor]. unfold settled; cbn [state inbound inboundCount inboundResponse]. right. repeat split. }
    destruct ((b =? RESPONSE_CODE.ACK) || (b =? RESPONSE_CODE.ERR)
              || (b =? RESPONSE_CODE.INTERRUPT)) eqn:Hcode.
    + split; [|constructor]. unfold settled; cbn [state inbound inboundCount inboundResponse]. exists b. split; [reflexivity|].
      apply orb_true_iff in Hcode. destruct Hcode as [Hcode | Hcode].
      * apply orb_true_iff in Hcode. destruct Hcode as [Hcode | Hcode];
          apply Z.eqb_eq in Hcode; auto.
      * apply Z.eqb_eq in Hcode. auto.
    + split; [exact H | constructor].
  - (* LEN *)
    unfold settled in H. rewrite Hstate in H.
    destruct (JS.len (inbound st ++ [b]) =? 2); (split; [|constructor]);
      unfold settled; cbn [state inbound inboundCount inboundResponse].
    + left. exact H.
    + exact H.
  - (* DATA *)
    unfold settled in H. rewrite Hstate in H.
    destruct (Z.eqb_spec (JS.len (inbound st ++ [b])) (inboundCount st)) as [Hfull | Hmore].
    + destruct H as [H | (H & Hcount & Hlen)]; rewrite H.
      * change (RESPONSE_CODE.MESSAGE =? RESPONSE_CODE.MESSAGE) with true. cbv iota.
        destruct (NDEF.Message_parse fuel (inbound st ++ [b])); [| |exact I].
        -- split; [exact I|]. (constructor; [unfold event_shaped; cbn [type data message read_error] | constructor]). eexists. split; reflexivity.
        -- split; [exact I|]. (constructor; [unfold event_shaped; cbn [type data message read_error] | constructor]). right. eexists. split; reflexivity.
      * change (RESPONSE_CODE.DATA =? RESPONSE_CODE.MESSAGE) with false.
        change (RESPONSE_CODE.DATA =? RESPONSE_CODE.DATA) with true. cbv iota. cbn [orb].
        split; [exact I|]. (constructor; [unfold event_shaped; cbn [type data message read_error] | constructor]).
        rewrite Hcount in Hfull. revert Hfull Hlen. len_norm. intros Hfull Hlen.
        destruct (inbound st) as [|x [|y l]].
        -- revert Hfull. change (JS.len []) with 0. lia.
        -- exists x, b. split; reflexivity.
        -- revert Hlen. len_norm. pose proof (len_nonneg l). lia.
    + split; [|constructor]. unfold settled; cbn [state inbound inboundCount inboundResponse].
      destruct H as [H | (H & Hcount & Hlen)]; [left; exact H|].
      right. split; [exact H|]. split; [exact Hcount|].
      rewrite Hcount in Hmore. revert Hmore Hlen. len_norm.
      pose proof (len_nonneg (inbound st)). lia.
  - (* INFO *)
    unfold settled in H. rewrite Hstate in H.
    destruct H as (c & Hin & Hc). rewrite Hin.
    change (JS.get [c] 0) with (Some c). split; [exact I|].
    constructor; [|constructor].
    destruct Hc as [-> | [-> | ->]]; unfold event_shaped; cbn.
    + exists b. split; reflexivity.
    + left. exists b. split; reflexivity.
    + exists b. split; reflexivity.
Qed.

Lemma information_shaped (s : string) : Forall event_shaped (information s).
Proof.
  unfold information. destruct s as [|a s]; [constructor|].
  constructor; [|constructor]. unfold event_shaped. cbn.
  eexists. repeat split. discriminate.
Qed.

Lemma processdata_loop_settled (fuel : nat) (bytes : list Z) :
  forall st s events,
    settled st -> Forall event_shaped events ->
    match processdata_loop fuel st bytes s events with
    | Done st' events' => settled st' /\ Forall event_shaped events'
    | Raised _ _ => False
    | Hung events' => Forall event_shaped events'
    end.
Proof.
  induction bytes as [|b bytes IH]; intros st s events Hst Hev; cbn [processdata_loop].
  - split; [exact Hst|]. apply Forall_app. split; [exact Hev | apply information_shaped].
  - pose proof (processbyte_settled fuel st b Hst) as Hb.
    destruct (processbyte fuel st b) as [st' emitted s' | response |];
      [|contradiction|exact Hev].
    destruct Hb as [Hst' Hem]. apply IH; [exact Hst'|].
    apply Forall_app. split; assumption.
Qed.

Lemma feed_settled (fuel : nat) (chunks : list (list Z)) :
  forall st events,
    settled st -> Forall event_shaped events ->
    match feed fuel st chunks events with
    | Done st' events' => settled st' /\ Forall event_shaped events'
    | Raised _ _ => False
    | Hung events' => Forall event_shaped events'
    end.
Proof.
  induction chunks as [|chunk chunks IH]; intros st events Hst Hev; cbn [feed].
  - split; assumption.
  - pose proof (processdata_loop_settled fuel chunk st "" [] Hst (Forall_nil _)) as Hc.
    fold (processdata fuel st chunk) in Hc.
    destruct (processdata fuel st chunk) as [st' emitted | response emitted | emitted];
      [|contradiction|].
    + destruct Hc as [Hst' Hem]. apply IH; [exact Hst'|].
      apply Forall_app. split; assumption.
    + apply Forall_app. split; assumption.
Qed.

(** X17. Whatever bytes are fed from the initial state, in whatever
    chunks, every event emitted has one of the six types ACK, INTERRUPT,
    ERROR, DATA, NDEF_MESSAGE, INFORMATION and the shape of its type; in
    particular a DATA event always carries exactly two bytes and no event
    is emitted without a type. *)
Theorem processdata_events_shaped (fuel : nat) (chunks : list (list Z)) :
  Forall event_shaped (emitted_events (feed fuel initial chunks [])).
Proof.
  pose proof (feed_settled fuel chunks initial [] settled_initial (Forall_nil _)) as H.
  destruct (feed fuel initial chunks []) as [st events | response events | events];
    cbn [emitted_events]; [exact (proj2 H) | contradiction | exact H].
Qed.

(** *** The frame encoder *)

Lemma flat_map_stuffed_head (data : list Z) (rest : list Z) :
  flat_map stuffed data = 0x4A :: rest -> False.
Proof.
  destruct data as [|d data]; [discriminate|].
  cbn [flat_map]. unfold stuffed.
  destruct (Z.eqb_spec d 0x4A) as [-> | Hne]; [discriminate|].
  cbn [app]. intros H. injection H as H _. contradiction.
Qed.

Lemma unstuff_stuffed (data : list Z) : unstuff (flat_map stuffed data) = data.
Proof.
  induction data as [|d data IH]; [reflexivity|].
  cbn [flat_map]. unfold stuffed at 1.
  destruct (Z.eqb_spec d 0x4A) as [-> | Hne].
  - cbn [app unstuff]. change ((0xE5 =? 0xE5) && (0x4A =? 0x4A)) with true. cbv iota.
    rewrite IH. reflexivity.
  - cbn [app]. destruct (flat_map stuffed data) as [|b rest] eqn:Hrest.
    + rewrite <- IH. reflexivity.
    + change (unstuff (d :: b :: rest))
        with (if (d =? 0xE5) && (b =? 0x4A) then b :: unstuff rest
              else d :: unstuff (b :: rest)).
      destruct (Z.eqb_spec b 0x4A) as [-> | Hb].
      * exfalso. exact (flat_map_stuffed_head data rest Hrest).
      * rewrite andb_false_r. rewrite IH. reflexivity.
Qed.

(** X18. [senddata] loses nothing: two payloads that are written as the
    same bytes are the same payload (dropping the 0xE5 before each 0x4A
    gives the payload back). *)
Theorem senddata_injective (written : list (list Z)) (data1 data2 : list Z) :
  senddata (Some written) data1 = senddata (Some written) data2 -> data1 = data2.
Proof.
  unfold senddata. rewrite !escape_loop_flat_map. intros H.
  injection H as H. apply app_inv_head in H. injection H as H.
  rewrite <- (unstuff_stuffed data1), <- (unstuff_stuffed data2), H. reflexivity.
Qed.

Lemma senddata_injective_witness :
  senddata (Some []) [0x4A; 0xE5] = senddata (Some []) [0x4A; 0xE5]
  /\ [0x4A; 0xE5] = [0x4A; 0xE5].
Proof.
  split; [reflexivity|]. apply (senddata_injective [] [0x4A; 0xE5] [0x4A; 0xE5]). reflexivity.
Defined.

(** X19. With a port open, [senddata] writes one array of two marker
    bytes, the payload bytes, and one more byte for each payload byte equal
    to 0x4A. *)
Theorem senddata_length (written : list (list Z)) (data : list Z) :
  exists bytes,
    senddata (Some written) data = Some (written ++ [bytes])
    /\ JS.len bytes = 2 + JS.len data + Z.of_nat (count_occ Z.eq_dec data 0x4A).
Proof.
  eexists. split; [reflexivity|].
  rewrite escape_loop_flat_map. len_norm.
  induction data as [|d data IH]; [reflexivity|].
  cbn [flat_map count_occ]. len_norm. unfold stuffed at 1.
  destruct (Z.eq_dec d 0x4A) as [-> | Hne].
  - change (0x4A =? 0x4A) with true. cbv iota. len_norm. lia.
  - destruct (Z.eqb_spec d 0x4A) as [|_]; [contradiction|]. len_norm. lia.
Qed.

End CommsMore.

(* ------------------------------------------------------------------ *)
(** ** Facts about nfc-client.js *)

Module ClientFacts.

Import NDEF Properties MoreProperties JSFacts CommsFacts NDEFMore CommsMore Client.

(** X20. [sendMessage] never throws "Not connected".  For a message of
    fewer than 65536 bytes and an open port it writes the marker bytes and
    then, stuffed, the command 0x40, the length of the message as two
    bytes, high byte first, and the bytes of the message; with no port open
    it returns without writing. *)
Theorem sendMessage_frame (written : list (list Z)) (m : Message) :
  JS.len (Message_getBytes m) < 65536 ->
  let len := JS.len (Message_getBytes m) in
  sendMessage (Some written) m
  = Sent (Some (written ++ [[0x4A; 0xE5]
                             ++ flat_map stuffed ([SET_NFC_MESSAGE; len / 256; len mod 256]
                                                  ++ Message_getBytes m)]))
  /\ 0 <= len / 256 < 256
  /\ 0 <= len mod 256 < 256
  /\ sendMessage None m = Sent None
  /\ (forall port m', sendMessage port m' <> NotConnected).
Proof.
  intros Hlen len. pose proof (len_nonneg (Message_getBytes m)) as Hpos. fold len in Hpos, Hlen.
  assert (Hhi : JS.sar len 8 = len / 256).
  { unfold JS.sar. rewrite to_int32_small by lia. rewrite Z.shiftr_div_pow2 by lia. reflexivity. }
  assert (Hlo : JS.and len 0xff = len mod 256).
  { unfold JS.and. rewrite !to_int32_small by lia.
    change 255 with (Z.ones 8). rewrite Z.land_ones by lia. reflexivity. }
  split.
  - unfold sendMessage, connected_truthy. cbn [negb]. fold len. rewrite Hhi, Hlo.
    unfold Comms.senddata. rewrite escape_loop_flat_map. reflexivity.
  - split; [split; [apply Z.div_pos | apply Z.div_lt_upper_bound]; lia|].
    split; [apply Z.mod_pos_bound; lia|].
    split; [reflexivity | discriminate].
Qed.

Lemma sendMessage_frame_witness :
  JS.len (Message_getBytes example_message) < 65536
  /\ sendMessage (Some []) example_message
     = Sent (Some ([] ++ [[0x4A; 0xE5]
                          ++ flat_map stuffed
                               ([SET_NFC_MESSAGE;
                                 JS.len (Message_getBytes example_message) / 256;
                                 JS.len (Message_getBytes example_message) mod 256]
                                ++ Message_getBytes example_message)]))
  /\ 0 <= JS.len (Message_getBytes example_message) / 256 < 256
  /\ 0 <= JS.len (Message_getBytes example_message) mod 256 < 256
  /\ sendMessage None example_message = Sent None
  /\ (forall port m', sendMessage port m' <> NotConnected).
Proof.
  split; [exact example_message_length|].
  apply (sendMessage_frame [] example_message). exact example_message_length.
Defined.

(** *** hex *)

Lemma hex_value_app (a b : string) :
  forall acc, hex_value (a ++ b) acc
              = match hex_value a acc with Some v => hex_value b v | None => None end.
Proof.
  induction a as [|x a IH]; intros acc; [reflexivity|].
  simpl. destruct (digit_value x); [apply IH | reflexivity].
Qed.

Lemma HEX_digit (d : Z) :
  0 <= d < 16 -> exists a, HEX d = String a EmptyString /\ digit_value a = Some d.
Proof.
  intros Hd.
  assert (Hcases : In d (List.map Z.of_nat (seq 0 16))).
  { apply in_map_iff. exists (Z.to_nat d). split; [lia | apply in_seq; lia]. }
  simpl in Hcases.
  repeat (destruct Hcases as [<- | Hcases]; [eexists; split; reflexivity|]).
  contradiction.
Qed.

Lemma string_length_app (a b : string) :
  String.length (a ++ b) = (String.length a + String.length b)%nat.
Proof. induction a as [|x a IH]; [reflexivity|]. simpl. rewrite IH. reflexivity. Qed.

(** The digits the loop of [hex] puts before [str]: none for 0, and no
    leading zero. *)
Lemma hex_loop_digits (fuel : nat) :
  forall c str,
    0 <= c < 16 ^ Z.of_nat fuel ->
    exists digits,
      hex_loop fuel c str = Some (digits ++ str)%string
      /\ hex_value digits 0 = Some c
      /\ (c = 0 -> digits = "")
      /\ (0 < c -> 16 ^ Z.of_nat (String.length digits) <= 16 * c).
Proof.
  induction fuel as [|fuel IH]; intros c str Hc.
  - change (16 ^ Z.of_nat 0) with 1 in Hc. assert (c = 0) by lia. subst c.
    exists "". repeat split; try reflexivity; lia.
  - destruct (Z.eq_dec c 0) as [-> | Hnz].
    { exists "". destruct fuel; repeat split; try reflexivity; lia. }
    cbn [hex_loop].
    destruct (Z.gtb_spec c 0) as [_ | Hle]; [|lia].
    destruct (HEX_digit (c mod 16) ltac:(apply Z.mod_pos_bound; lia)) as (a & Ha & Hv).
    assert (Hdiv : 0 <= c / 16 < 16 ^ Z.of_nat fuel).
    { split; [apply Z.div_pos; lia|]. apply Z.div_lt_upper_bound; [lia|].
      rewrite Nat2Z.inj_succ, Z.pow_succ_r in Hc by lia. lia. }
    destruct (IH (c / 16) (HEX (c mod 16) ++ str)%string Hdiv)
      as (digits & Hloop & Hval & Hzero & Hlead).
    exists (digits ++ HEX (c mod 16))%string.
    split; [rewrite Hloop, string_app_assoc; reflexivity|].
    split.
    + rewrite hex_value_app, Hval, Ha. cbn [hex_value]. rewrite Hv.
      f_equal. pose proof (Z.div_mod c 16). lia.
    + split; [lia|]. intros _.
      rewrite string_length_app, Ha. cbn [String.length].
      rewrite Nat2Z.inj_add. change (Z.of_nat 1) with 1.
      rewrite Z.pow_add_r by lia. change (16 ^ 1) with 16.
      destruct (Z.eq_dec (c / 16) 0) as [Hq | Hq].
      * rewrite (Hzero Hq). change (16 ^ Z.of_nat (String.length "")) with 1. lia.
      * assert (Hqpos : 0 < c / 16) by lia.
        pose proof (Hlead Hqpos) as Hle.
        pose proof (Z.mul_div_le c 16 ltac:(lia)). lia.
Qed.

(** X21. For an integer [c] from 0 on, [hex(c)] returns "0x" followed by
    an even number of upper-case hexadecimal digits whose value is [c]: no
    digit at all for 0, and otherwise the fewest digits that an even number
    allows (the first two digits are not both zero). *)
Theorem hex_value_hex (fuel : nat) (c : Z) :
  0 <= c < 16 ^ Z.of_nat fuel ->
  exists digits,
    hex fuel c = Some ("0x" ++ digits)%string
    /\ Nat.even (String.length digits) = true
    /\ hex_value digits 0 = Some c
    /\ ((c = 0 /\ digits = "")
        \/ (0 < c /\ 16 ^ Z.of_nat (String.length digits) <= 256 * c)).
Proof.
  intros Hc.
  destruct (hex_loop_digits fuel c "" Hc) as (digits & Hloop & Hval & Hzero & Hlead).
  rewrite string_app_nil_r in Hloop. unfold hex. rewrite Hloop.
  destruct (Nat.eqb_spec (String.length digits mod 2) 1) as [Hodd | Heven].
  - exists (String "0" digits). split; [reflexivity|]. split; [|split].
    + assert (Hnot : Nat.even (String.length digits) = false).
      { destruct (Nat.even (String.length digits)) eqn:E; [|reflexivity].
        apply Nat.even_spec in E. destruct E as [k Hk]. rewrite Hk in Hodd.
        rewrite Nat.mul_comm, Nat.Div0.mod_mul in Hodd. discriminate. }
      cbn [String.length]. rewrite Nat.even_succ, <- Nat.negb_even, Hnot. reflexivity.
    + cbn [hex_value]. change (digit_value "0") with (Some 0). exact Hval.
    + right. destruct (Z.eq_dec c 0) as [Hc0 | Hc0].
      { rewrite (Hzero Hc0) in Hodd. discriminate Hodd. }
      assert (Hpos : 0 < c) by lia.
      split; [exact Hpos|].
      cbn [String.length]. rewrite Nat2Z.inj_succ, Z.pow_succ_r by lia.
      pose proof (Hlead Hpos). lia.
  - exists digits. split; [reflexivity|]. split; [|split; [exact Hval|]].
    + destruct (Nat.even (String.length digits)) eqn:E; [reflexivity|].
      exfalso. apply Heven.
      assert (Hodd : Nat.odd (String.length digits) = true)
        by (rewrite <- Nat.negb_even, E; reflexivity).
      apply Nat.odd_spec in Hodd. destruct Hodd as [k Hk]. rewrite Hk.
      rewrite Nat.add_comm, Nat.mul_comm, Nat.Div0.mod_add. reflexivity.
    + destruct (Z.eq_dec c 0) as [Hc0 | Hc0]; [left; split; [exact Hc0 | exact (Hzero Hc0)]|].
      right. assert (Hpos : 0 < c) by lia.
      split; [exact Hpos|]. pose proof (Hlead Hpos). lia.
Qed.

Lemma hex_value_hex_witness :
  0 <= 0xA5 < 16 ^ Z.of_nat 2
  /\ exists digits,
       hex 2 0xA5 = Some ("0x" ++ digits)%string
       /\ Nat.even (String.length digits) = true
       /\ hex_value digits 0 = Some 0xA5
       /\ ((0xA5 = 0 /\ digits = "")
           \/ (0 < 0xA5 /\ 16 ^ Z.of_nat (String.length digits) <= 256 * 0xA5)).
Proof.
  split; [split; [lia | reflexivity]|]. apply hex_value_hex. split; [lia | reflexivity].
Defined.

End ClientFacts.
